(** * DrawingMaster: the raster editing core of [src/app.js]

    A shallow embedding of the pixel accessors, the flood fill, the
    snapshot history and the pointer-gesture controller of the
    [DrawingMaster] class, with the properties of the design document
    stated and settled against it.

    Conventions of the embedding.
    - JavaScript numbers that are always integers in the code (pixel
      coordinates after [Math.floor], array indices, channel values,
      [historyIndex]) are [Z]; pointer coordinates and the opacity are
      rationals [Q], an exact idealisation of the doubles of the source.
    - A value that may be [undefined] is an [option].
    - Every [ImageData] object carries the identity [oid] of its allocation:
      two snapshots are the same JavaScript reference iff their [oid]s agree.
    - A platform call that can throw returns a sum with [JsError]; a method
      of the class yields an [Outcome], returned or thrown. *)

From Stdlib Require Import ZArith QArith Qround String Ascii List Lia.
From stdpp Require Import base option list gmap sets.

Local Open Scope Z_scope.

(** ** Pixel buffers *)

(** [{r, g, b, a}]: each channel is a number or [undefined]. *)
Record Color := mkColor {
  c_r : option Z;
  c_g : option Z;
  c_b : option Z;
  c_a : option Z
}.

(** [ImageData]: [data] is the [Uint8ClampedArray] of the object, row-major
    RGBA. *)
Record ImageData := mkImageData {
  oid : nat;
  width : Z;
  height : Z;
  data : list Z
}.

(** [arr[i]] on an array: [undefined] outside the array. *)
Definition js_get {A : Type} (arr : list A) (i : Z) : option A :=
  if i <? 0 then None else arr !! Z.to_nat i.

(** Conversion of a stored value by a [Uint8ClampedArray]; [undefined]
    converts to [NaN], stored as 0. *)
Definition toUint8Clamped (v : option Z) : Z :=
  match v with
  | None => 0
  | Some n => Z.max 0 (Z.min 255 n)
  end.

(** [arr[i] = v] on a [Uint8ClampedArray]: ignored outside the array. *)
Definition js_set (arr : list Z) (i : Z) (v : option Z) : list Z :=
  if i <? 0 then arr else <[Z.to_nat i := toUint8Clamped v]> arr.

Definition getPixelColor (imageData : ImageData) (x y : Z) : Color :=
  let index := (y * width imageData + x) * 4 in
  {| c_r := js_get (data imageData) index;
     c_g := js_get (data imageData) (index + 1);
     c_b := js_get (data imageData) (index + 2);
     c_a := js_get (data imageData) (index + 3) |}.

Definition setPixelColor (imageData : ImageData) (x y : Z) (color : Color)
  : ImageData :=
  let index := (y * width imageData + x) * 4 in
  let d0 := js_set (data imageData) index (c_r color) in
  let d1 := js_set d0 (index + 1) (c_g color) in
  let d2 := js_set d1 (index + 2) (c_b color) in
  let d3 := js_set d2 (index + 3) (c_a color) in
  {| oid := oid imageData; width := width imageData;
     height := height imageData; data := d3 |}.

(** [===] on channel values. *)
Definition strict_eq (u v : option Z) : bool :=
  match u, v with
  | Some m, Some n => m =? n
  | None, None => true
  | _, _ => false
  end.

Definition colorsEqual (color1 color2 : Color) : bool :=
  strict_eq (c_r color1) (c_r color2) && strict_eq (c_g color1) (c_g color2) &&
  strict_eq (c_b color1) (c_b color2) && strict_eq (c_a color1) (c_a color2).

(** ** Flood fill *)

(** The loop state of [floodFill].  The [visited] set of the source holds the
    keys [`${x},${y}`]; the key is injective on integer pairs, so the set is
    modelled as a set of pairs.  The top of the JavaScript stack is the head
    of [fs_stack]. *)
Record FillState := mkFillState {
  fs_img : ImageData;
  fs_visited : gset (Z * Z);
  fs_stack : list (Z * Z)
}.

Definition inBounds (imageData : ImageData) (p : Z * Z) : bool :=
  negb ((p.1 <? 0) || (p.1 >=? width imageData) ||
        (p.2 <? 0) || (p.2 >=? height imageData)).

(** The four pushes of one iteration, as they lie on the stack afterwards. *)
Definition pushNeighbours (x y : Z) (stack : list (Z * Z)) : list (Z * Z) :=
  (x, y - 1) :: (x, y + 1) :: (x - 1, y) :: (x + 1, y) :: stack.

(** One iteration of the [while] loop, for a non-empty stack. *)
Definition floodFill_iteration (targetColor fillColor : Color) (s : FillState)
  : FillState :=
  match fs_stack s with
  | [] => s
  | (currentX, currentY) :: stack =>
    let skip := {| fs_img := fs_img s; fs_visited := fs_visited s;
                   fs_stack := stack |} in
    if negb (inBounds (fs_img s) (currentX, currentY)) then skip
    else if bool_decide ((currentX, currentY) ∈ fs_visited s) then skip
    else if negb (colorsEqual (getPixelColor (fs_img s) currentX currentY)
                              targetColor) then skip
    else {| fs_img := setPixelColor (fs_img s) currentX currentY fillColor;
            fs_visited := {[ (currentX, currentY) ]} ∪ fs_visited s;
            fs_stack := pushNeighbours currentX currentY stack |}
  end.

(** [while (stack.length > 0) { ... }], bounded by [fuel] iterations. *)
Fixpoint floodFill_loop (fuel : nat) (targetColor fillColor : Color)
  (s : FillState) : option FillState :=
  match fs_stack s with
  | [] => Some s
  | _ :: _ =>
    match fuel with
    | O => None
    | S fuel' =>
      floodFill_loop fuel' targetColor fillColor
        (floodFill_iteration targetColor fillColor s)
    end
  end.

Definition floodFill_init (imageData : ImageData) (x y : Z) : FillState :=
  {| fs_img := imageData; fs_visited := ∅; fs_stack := [(x, y)] |}.

(** A number of iterations that always suffices, as proved below. *)
Definition floodFill_budget (imageData : ImageData) : nat :=
  4 * (Z.to_nat (width imageData) * Z.to_nat (height imageData)) + 1.

(** [floodFill(imageData, x, y, targetColor, fillColor)]: the buffer after
    the in-place fill. *)
Definition floodFill (imageData : ImageData) (x y : Z)
  (targetColor fillColor : Color) : ImageData :=
  match floodFill_loop (floodFill_budget imageData) targetColor fillColor
          (floodFill_init imageData x y) with
  | Some s => fs_img s
  | None => imageData
  end.

(** ** The canvas and its 2D context *)

(** Exceptions the platform calls of the source can raise. *)
Inductive JsError := TypeError | IndexSizeError.

(** The canvas element: its size in device pixels and its bitmap, row-major
    RGBA.  The bitmap is modelled as storing the four channels exactly;
    conversions through premultiplied alpha are not modelled.  A browser
    keeps the channels exactly for opaque pixels and for data it handed out
    itself; properties about writing other data assume an opaque colour. *)
Record Canvas := mkCanvas {
  cv_width : Z;
  cv_height : Z;
  cv_bitmap : list Z
}.

(** [ctx.getImageData(sx, sy, sw, sh)] into a new object of identity
    [fresh]: throws [IndexSizeError] on an empty rectangle; pixels outside
    the canvas read as transparent black.  The code passes no negative size. *)
Definition getImageData (cv : Canvas) (fresh : nat) (sx sy sw sh : Z)
  : JsError + ImageData :=
  if (sw =? 0) || (sh =? 0) then inl IndexSizeError
  else inr
    {| oid := fresh; width := sw; height := sh;
       data :=
         (λ i, let p := i / 4 in
               let x := sx + p mod sw in
               let y := sy + p / sw in
               if (0 <=? x) && (x <? cv_width cv) &&
                  (0 <=? y) && (y <? cv_height cv)
               then default 0 (js_get (cv_bitmap cv)
                                 ((y * cv_width cv + x) * 4 + i mod 4))
               else 0) <$> seqZ 0 (4 * sw * sh) |}.

(** [ctx.putImageData(imageData, 0, 0)]: copies the part of the image that
    lies on the canvas. *)
Definition putImageData (imageData : ImageData) (cv : Canvas) : Canvas :=
  {| cv_width := cv_width cv; cv_height := cv_height cv;
     cv_bitmap :=
       (λ i, let p := i / 4 in
             let x := p mod cv_width cv in
             let y := p / cv_width cv in
             let old := default 0 (js_get (cv_bitmap cv) i) in
             if (x <? width imageData) && (y <? height imageData)
             then default old (js_get (data imageData)
                                 ((y * width imageData + x) * 4 + i mod 4))
             else old) <$> seqZ 0 (Z.of_nat (length (cv_bitmap cv))) |}.

Inductive Composite := source_over | destination_out.

(** [ctx.font]: the code only ever assigns [`${n}px Arial`]. *)
Inductive Font := defaultFont | pxArial (n : Z).

(** Segments of the current path.  [arcFull x y rr] is
    [arc(x, y, Math.sqrt(rr), 0, 2 * Math.PI)]. *)
Inductive PathCmd :=
  | moveTo (x y : Q)
  | lineTo (x y : Q)
  | arcFull (x y rr : Q).

Record Ctx := mkCtx {
  strokeStyle : string;
  fillStyle : string;
  lineWidth : Z;
  globalAlpha : Q;
  globalCompositeOperation : Composite;
  font : Font;
  path : list PathCmd
}.

(** The rasterising calls of the 2D context, which the browser implements:
    what [stroke()], [strokeRect(x, y, w, h)] and [fillText(text, x, y)] do
    to the bitmap under the current context state. *)
Class Raster := {
  stroke : Ctx → Canvas → Canvas;
  strokeRect : Q → Q → Q → Q → Ctx → Canvas → Canvas;
  fillText : string → Q → Q → Ctx → Canvas → Canvas
}.

(** ** Application state *)

Record Point := mkPoint { pos_x : Q; pos_y : Q }.

(** The fields of [DrawingMaster] the editing core uses.  [nextOid] is the
    identity the next allocated [ImageData] object receives. *)
Record App := mkApp {
  canvas : Canvas;
  ctx : Ctx;
  isDrawing : bool;
  currentTool : string;
  currentColor : string;
  brushSize : Z;
  opacity : Q;
  startX : Q;
  startY : Q;
  endX : Q;
  endY : Q;
  history : list ImageData;
  historyIndex : Z;
  maxHistorySteps : Z;
  nextOid : nat
}.

Definition set_canvas (v : Canvas) (st : App) : App :=
  mkApp v (ctx st) (isDrawing st) (currentTool st) (currentColor st)
    (brushSize st) (opacity st) (startX st) (startY st) (endX st) (endY st)
    (history st) (historyIndex st) (maxHistorySteps st) (nextOid st).

Definition set_ctx (v : Ctx) (st : App) : App :=
  mkApp (canvas st) v (isDrawing st) (currentTool st) (currentColor st)
    (brushSize st) (opacity st) (startX st) (startY st) (endX st) (endY st)
    (history st) (historyIndex st) (maxHistorySteps st) (nextOid st).

Definition set_isDrawing (v : bool) (st : App) : App :=
  mkApp (canvas st) (ctx st) v (currentTool st) (currentColor st)
    (brushSize st) (opacity st) (startX st) (startY st) (endX st) (endY st)
    (history st) (historyIndex st) (maxHistorySteps st) (nextOid st).

Definition set_currentColor (v : string) (st : App) : App :=
  mkApp (canvas st) (ctx st) (isDrawing st) (currentTool st) v
    (brushSize st) (opacity st) (startX st) (startY st) (endX st) (endY st)
    (history st) (historyIndex st) (maxHistorySteps st) (nextOid st).

Definition set_start (x y : Q) (st : App) : App :=
  mkApp (canvas st) (ctx st) (isDrawing st) (currentTool st) (currentColor st)
    (brushSize st) (opacity st) x y (endX st) (endY st)
    (history st) (historyIndex st) (maxHistorySteps st) (nextOid st).

Definition set_end (x y : Q) (st : App) : App :=
  mkApp (canvas st) (ctx st) (isDrawing st) (currentTool st) (currentColor st)
    (brushSize st) (opacity st) (startX st) (startY st) x y
    (history st) (historyIndex st) (maxHistorySteps st) (nextOid st).

Definition set_history (v : list ImageData) (st : App) : App :=
  mkApp (canvas st) (ctx st) (isDrawing st) (currentTool st) (currentColor st)
    (brushSize st) (opacity st) (startX st) (startY st) (endX st) (endY st)
    v (historyIndex st) (maxHistorySteps st) (nextOid st).

Definition set_historyIndex (v : Z) (st : App) : App :=
  mkApp (canvas st) (ctx st) (isDrawing st) (currentTool st) (currentColor st)
    (brushSize st) (opacity st) (startX st) (startY st) (endX st) (endY st)
    (history st) v (maxHistorySteps st) (nextOid st).

Definition set_nextOid (v : nat) (st : App) : App :=
  mkApp (canvas st) (ctx st) (isDrawing st) (currentTool st) (currentColor st)
    (brushSize st) (opacity st) (startX st) (startY st) (endX st) (endY st)
    (history st) (historyIndex st) (maxHistorySteps st) v.

(** The outcome of running a method on a state: it returns, or it throws
    and leaves the object as it was at the throw. *)
Inductive Outcome :=
  | Done (st : App)
  | Thrown (e : JsError) (st : App).

Definition andThen (o : Outcome) (k : App → Outcome) : Outcome :=
  match o with
  | Done st => k st
  | Thrown e st => Thrown e st
  end.

Notation "o >>> k" := (andThen o k) (at level 61, left associativity).

(** [ctx.putImageData(this.history[i], 0, 0)]: a [TypeError] when the entry
    is [undefined]. *)
Definition putHistoryEntry (i : Z) (st : App) : Outcome :=
  match js_get (history st) i with
  | Some imageData => Done (set_canvas (putImageData imageData (canvas st)) st)
  | None => Thrown TypeError st
  end.

(** [ctx.getImageData(0, 0, canvas.width, canvas.height)], allocating. *)
Definition captureCanvas (st : App) : JsError + ImageData :=
  getImageData (canvas st) (nextOid st) 0 0
    (cv_width (canvas st)) (cv_height (canvas st)).

(** ** History *)

(** [arr.slice(0, e)]. *)
Definition slice0 {A : Type} (arr : list A) (e : Z) : list A :=
  let len := Z.of_nat (length arr) in
  let final := if e <? 0 then Z.max (len + e) 0 else Z.min e len in
  take (Z.to_nat final) arr.

Definition saveState (st : App) : Outcome :=
  let st1 :=
    if Z.of_nat (length (history st)) >? maxHistorySteps st
    then set_historyIndex (historyIndex st - 1)
           (set_history (tail (history st)) st)
    else st in
  match captureCanvas st1 with
  | inl e => Thrown e st1
  | inr imageData =>
    let st2 := set_nextOid (S (nextOid st1)) st1 in
    let st3 := set_history
                 (slice0 (history st2) (historyIndex st2 + 1) ++ [imageData])
                 st2 in
    Done (set_historyIndex (Z.of_nat (length (history st3)) - 1) st3)
  end.

Definition undo (st : App) : Outcome :=
  if historyIndex st >? 0 then
    let st1 := set_historyIndex (historyIndex st - 1) st in
    putHistoryEntry (historyIndex st1) st1
  else Done st.

Definition redo (st : App) : Outcome :=
  if historyIndex st <? Z.of_nat (length (history st)) - 1 then
    let st1 := set_historyIndex (historyIndex st + 1) st in
    putHistoryEntry (historyIndex st1) st1
  else Done st.

(** [redrawCanvas()], the base redraw of the shape previews. *)
Definition redrawCanvas (st : App) : Outcome :=
  if (Z.of_nat (length (history st)) >? 0) && (historyIndex st >=? 0)
  then putHistoryEntry (historyIndex st) st
  else Done st.

(** ** Colours of the tool context *)

(** [Math.round] and [Math.floor] on exact rationals. *)
Definition Math_round (q : Q) : Z := Qfloor (q + (1 # 2))%Q.
Definition Math_floor (q : Q) : Z := Qfloor q.

(** Value of one character of the class [[a-f\d]] under the [i] flag. *)
Definition hexDigit (c : ascii) : option Z :=
  let n := Z.of_N (N_of_ascii c) in
  if (48 <=? n) && (n <=? 57) then Some (n - 48)
  else if (97 <=? n) && (n <=? 102) then Some (n - 87)
  else if (65 <=? n) && (n <=? 70) then Some (n - 55)
  else None.

(** [parseInt(cc, 16)] on a group the expression matched. *)
Definition parseHexPair (c1 c2 : ascii) : option Z :=
  match hexDigit c1, hexDigit c2 with
  | Some h, Some l => Some (16 * h + l)
  | _, _ => None
  end.

(** [hexToRgba(hex)]; the expression is
    [/^#?([a-f\d]{2})([a-f\d]{2})([a-f\d]{2})$/i]. *)
Definition hexToRgba (opacity : Q) (hex : string) : Color :=
  let digits :=
    match hex with
    | String "#" rest => rest
    | _ => hex
    end in
  let result :=
    match list_ascii_of_string digits with
    | [c1; c2; c3; c4; c5; c6] =>
      match parseHexPair c1 c2, parseHexPair c3 c4, parseHexPair c5 c6 with
      | Some r, Some g, Some b => Some (r, g, b)
      | _, _, _ => None
      end
    | _ => None
    end in
  match result with
  | Some (r, g, b) =>
    {| c_r := Some r; c_g := Some g; c_b := Some b;
       c_a := Some (Math_round (opacity * 255)) |}
  | None => {| c_r := Some 0; c_g := Some 0; c_b := Some 0; c_a := Some 255 |}
  end.

Definition hexChar (n : Z) : ascii :=
  if n <? 10 then ascii_of_N (Z.to_N (48 + n)) else ascii_of_N (Z.to_N (87 + n)).

(** [x.toString(16)] padded to two digits, for a byte [x]. *)
Definition toHex2 (x : Z) : string :=
  String (hexChar (x / 16)) (String (hexChar (x mod 16)) EmptyString).

Definition rgbaToHex (r g b : Z) : string :=
  ("#" ++ toHex2 r ++ toHex2 g ++ toHex2 b)%string.

(** Characters [String.prototype.trim] strips, among code units below 256. *)
Definition isWhitespace (c : ascii) : bool :=
  let n := Z.of_N (N_of_ascii c) in
  ((9 <=? n) && (n <=? 13)) || (n =? 32) || (n =? 160).

Fixpoint trimStart (s : string) : string :=
  match s with
  | String c rest => if isWhitespace c then trimStart rest else s
  | EmptyString => EmptyString
  end.

Fixpoint trimEnd (s : string) : string :=
  match s with
  | String c rest =>
    match trimEnd rest with
    | EmptyString => if isWhitespace c then EmptyString else String c EmptyString
    | t => String c t
    end
  | EmptyString => EmptyString
  end.

Definition trim (s : string) : string := trimEnd (trimStart s).

(** Truthiness of a string value. *)
Definition truthy (s : string) : bool :=
  match s with
  | EmptyString => false
  | String _ _ => true
  end.

(** ** Gesture controller *)

Inductive Phase := phase_start | phase_move | phase_end.

Definition selectColor (color : string) (st : App) : App :=
  set_currentColor color st.

Definition isTool (name : string) (st : App) : bool :=
  String.eqb (currentTool st) name.

Definition setupDrawingContext (st : App) : App :=
  let eraser := isTool "eraser" st in
  set_ctx
    {| strokeStyle := if eraser then "#FFFFFF"%string else currentColor st;
       fillStyle := currentColor st;
       lineWidth := brushSize st;
       globalAlpha := if eraser then 1%Q else opacity st;
       globalCompositeOperation :=
         if eraser then destination_out else source_over;
       font := font (ctx st);
       path := path (ctx st) |} st.

Definition set_path (p : list PathCmd) (c : Ctx) : Ctx :=
  mkCtx (strokeStyle c) (fillStyle c) (lineWidth c) (globalAlpha c)
    (globalCompositeOperation c) (font c) p.

Definition set_font (f : Font) (c : Ctx) : Ctx :=
  mkCtx (strokeStyle c) (fillStyle c) (lineWidth c) (globalAlpha c)
    (globalCompositeOperation c) f (path c).

Definition ctx_beginPath (st : App) : App := set_ctx (set_path [] (ctx st)) st.

Definition ctx_path (cmd : PathCmd) (st : App) : App :=
  set_ctx (set_path (path (ctx st) ++ [cmd]) (ctx st)) st.

(** [clearCanvasToWhite()]: with the identity transform, full alpha and
    [source-over], [fillRect] over the whole canvas makes every channel of
    every pixel 255; [save]/[restore] leave the context as it was. *)
Definition clearCanvasToWhite (st : App) : App :=
  set_canvas
    {| cv_width := cv_width (canvas st); cv_height := cv_height (canvas st);
       cv_bitmap := (λ _, 255) <$> cv_bitmap (canvas st) |} st.

Definition clearCanvas (st : App) : Outcome := saveState (clearCanvasToWhite st).

(** The fields the constructor assigns, over a canvas element [cv]. *)
Definition constructed (cv : Canvas) : App :=
  {| canvas := cv;
     ctx := {| strokeStyle := "#000000"; fillStyle := "#000000"; lineWidth := 1;
               globalAlpha := 1; globalCompositeOperation := source_over;
               font := defaultFont; path := [] |};
     isDrawing := false;
     currentTool := "pencil";
     currentColor := "#000000";
     brushSize := 5;
     opacity := 1;
     startX := 0; startY := 0; endX := 0; endY := 0;
     history := [];
     historyIndex := -1;
     maxHistorySteps := 50;
     nextOid := O |}.

Definition handleFloodFill (pos : Point) (st : App) : Outcome :=
  match captureCanvas st with
  | inl e => Thrown e st
  | inr imageData =>
    let st1 := set_nextOid (S (nextOid st)) st in
    let targetColor :=
      getPixelColor imageData (Math_floor (pos_x pos)) (Math_floor (pos_y pos)) in
    let fillColor := hexToRgba (opacity st1) (currentColor st1) in
    if colorsEqual targetColor fillColor then Done st1
    else
      let filled :=
        floodFill imageData (Math_floor (pos_x pos)) (Math_floor (pos_y pos))
          targetColor fillColor in
      saveState (set_canvas (putImageData filled (canvas st1)) st1)
  end.

(** [handleColorPicker(pos)]; a 1x1 rectangle never makes [getImageData]
    throw, and its [data] has the four entries read here. *)
Definition handleColorPicker (pos : Point) (st : App) : Outcome :=
  match getImageData (canvas st) (nextOid st)
          (Math_floor (pos_x pos)) (Math_floor (pos_y pos)) 1 1 with
  | inl e => Thrown e st
  | inr imageData =>
    let pixel := data imageData in
    let color := rgbaToHex (default 0 (js_get pixel 0))
                   (default 0 (js_get pixel 1)) (default 0 (js_get pixel 2)) in
    Done (selectColor color (set_nextOid (S (nextOid st)) st))
  end.

Section GestureController.
Context `{R : Raster}.

Definition ctx_stroke (st : App) : App :=
  set_canvas (stroke (ctx st) (canvas st)) st.

Definition handleFreeDrawing (pos : Point) (phase : Phase) (st : App) : App :=
  match phase with
  | phase_start => ctx_path (moveTo (pos_x pos) (pos_y pos)) (ctx_beginPath st)
  | phase_move => ctx_stroke (ctx_path (lineTo (pos_x pos) (pos_y pos)) st)
  | phase_end => st
  end.

Definition handleEraser (pos : Point) (phase : Phase) (st : App) : App :=
  match phase with
  | phase_start => ctx_path (moveTo (pos_x pos) (pos_y pos)) (ctx_beginPath st)
  | phase_move => ctx_stroke (ctx_path (lineTo (pos_x pos) (pos_y pos)) st)
  | phase_end => st
  end.

Definition drawLinePreview (st : App) : App :=
  ctx_stroke
    (ctx_path (lineTo (endX st) (endY st))
       (ctx_path (moveTo (startX st) (startY st)) (ctx_beginPath st))).

Definition drawLine (st : App) : App := drawLinePreview (setupDrawingContext st).

Definition drawRectanglePreview (st : App) : App :=
  let width := (endX st - startX st)%Q in
  let height := (endY st - startY st)%Q in
  set_canvas
    (strokeRect (startX st) (startY st) width height (ctx st) (canvas st)) st.

Definition drawRectangle (st : App) : App :=
  drawRectanglePreview (setupDrawingContext st).

Definition drawCirclePreview (st : App) : App :=
  let rr := ((endX st - startX st) * (endX st - startX st) +
             (endY st - startY st) * (endY st - startY st))%Q in
  ctx_stroke (ctx_path (arcFull (startX st) (startY st) rr) (ctx_beginPath st)).

Definition drawCircle (st : App) : App := drawCirclePreview (setupDrawingContext st).

Definition handleLineDrawing (pos : Point) (phase : Phase) (st : App) : Outcome :=
  match phase with
  | phase_move => redrawCanvas st >>> (λ st1, Done (drawLinePreview st1))
  | phase_end => Done (drawLine st)
  | phase_start => Done st
  end.

Definition handleRectangleDrawing (pos : Point) (phase : Phase) (st : App)
  : Outcome :=
  match phase with
  | phase_move => redrawCanvas st >>> (λ st1, Done (drawRectanglePreview st1))
  | phase_end => Done (drawRectangle st)
  | phase_start => Done st
  end.

Definition handleCircleDrawing (pos : Point) (phase : Phase) (st : App)
  : Outcome :=
  match phase with
  | phase_move => redrawCanvas st >>> (λ st1, Done (drawCirclePreview st1))
  | phase_end => Done (drawCircle st)
  | phase_start => Done st
  end.

(** [handleTextTool(pos)]; [answer] is what [prompt] returns, [None] for
    [null] (the dialog was cancelled). *)
Definition handleTextTool (pos : Point) (answer : option string) (st : App)
  : Outcome :=
  match answer with
  | Some text =>
    if truthy text && truthy (trim text) then
      let st1 := setupDrawingContext st in
      let st2 := set_ctx (set_font (pxArial (brushSize st1 * 3)) (ctx st1)) st1 in
      saveState
        (set_canvas (fillText text (pos_x pos) (pos_y pos) (ctx st2) (canvas st2))
           st2)
    else Done st
  | None => Done st
  end.

Definition executeToolAction (pos : Point) (phase : Phase)
  (answer : option string) (st : App) : Outcome :=
  if isTool "pencil" st || isTool "brush" st then
    Done (handleFreeDrawing pos phase st)
  else if isTool "eraser" st then Done (handleEraser pos phase st)
  else if isTool "line" st then handleLineDrawing pos phase st
  else if isTool "rectangle" st then handleRectangleDrawing pos phase st
  else if isTool "circle" st then handleCircleDrawing pos phase st
  else if isTool "fill" st then
    match phase with
    | phase_start => handleFloodFill pos st
    | _ => Done st
    end
  else if isTool "eyedropper" st then
    match phase with
    | phase_start => handleColorPicker pos st
    | _ => Done st
    end
  else if isTool "text" st then
    match phase with
    | phase_start => handleTextTool pos answer st
    | _ => Done st
    end
  else Done st.

(** [handleMouseDown(e)]: [pos] is [getMousePosition(e)], [answer] the reply
    to the prompt should the text tool open it. *)
Definition handleMouseDown (pos : Point) (answer : option string) (st : App)
  : Outcome :=
  let st1 := set_isDrawing true st in
  let st2 := set_end (pos_x pos) (pos_y pos)
               (set_start (pos_x pos) (pos_y pos) st1) in
  executeToolAction pos phase_start answer (setupDrawingContext st2).

Definition handleMouseMove (pos : Point) (st : App) : Outcome :=
  if isDrawing st then
    executeToolAction pos phase_move None (set_end (pos_x pos) (pos_y pos) st)
  else Done st.

Definition handleMouseUp (pos : Point) (st : App) : Outcome :=
  if negb (isDrawing st) then Done st
  else
    executeToolAction pos phase_end None (set_isDrawing false st) >>> (λ st1,
      if negb (isTool "eyedropper" st1 || isTool "fill" st1)
      then saveState st1
      else Done st1).

Definition handleMouseMoves (moves : list Point) (st : App) : Outcome :=
  foldl (λ o pos, o >>> handleMouseMove pos) (Done st) moves.

(** A whole gesture: press at [down], the moves in order, release at [up]. *)
Definition gesture (down : Point) (answer : option string)
  (moves : list Point) (up : Point) (st : App) : Outcome :=
  handleMouseDown down answer st >>> handleMouseMoves moves >>> handleMouseUp up.

End GestureController.

(** [n] calls of [saveState] in a row. *)
Fixpoint saveStates (n : nat) (st : App) : Outcome :=
  match n with
  | O => Done st
  | S k => saveState st >>> saveStates k
  end.

(** ** Specification vocabulary *)

(** A pixel of [imageData] that the fill may take: inside the buffer and of
    the target colour in all four channels. *)
Definition fillable (imageData : ImageData) (targetColor : Color) (p : Z * Z)
  : bool :=
  inBounds imageData p &&
  colorsEqual (getPixelColor imageData p.1 p.2) targetColor.

(** [q] is the east, west, south or north neighbour of [p]. *)
Definition adjacent (p q : Z * Z) : Prop :=
  q = (p.1 + 1, p.2) ∨ q = (p.1 - 1, p.2) ∨
  q = (p.1, p.2 + 1) ∨ q = (p.1, p.2 - 1).

(** Pixels joined to the seed by a 4-connected path of fillable pixels. *)
Inductive reachable (imageData : ImageData) (targetColor : Color)
  (seed : Z * Z) : Z * Z → Prop :=
  | reachable_seed :
      fillable imageData targetColor seed = true →
      reachable imageData targetColor seed seed
  | reachable_step p q :
      reachable imageData targetColor seed p →
      adjacent p q →
      fillable imageData targetColor q = true →
      reachable imageData targetColor seed q.

(** A buffer as [getImageData] makes them: four bytes per pixel. *)
Definition buffer_wf (imageData : ImageData) : Prop :=
  0 ≤ width imageData ∧ 0 ≤ height imageData ∧
  Z.of_nat (length (data imageData)) = 4 * width imageData * height imageData.

Definition canvas_wf (cv : Canvas) : Prop :=
  0 ≤ cv_width cv ∧ 0 ≤ cv_height cv ∧
  Z.of_nat (length (cv_bitmap cv)) = 4 * cv_width cv * cv_height cv.

(** A colour whose channels are bytes. *)
Definition byteColor (c : Color) : Prop :=
  ∃ r g b a, c = mkColor (Some r) (Some g) (Some b) (Some a) ∧
    0 ≤ r ≤ 255 ∧ 0 ≤ g ≤ 255 ∧ 0 ≤ b ≤ 255 ∧ 0 ≤ a ≤ 255.

(** A colour of full alpha: the one kind of pixel that a canvas gives back
    exactly as [putImageData] wrote it. *)
Definition opaqueColor (c : Color) : Prop := c_a c = Some 255.

(** The coordinates inside a buffer, and the variant of the fill loop. *)
Definition pixelList (imageData : ImageData) : list (Z * Z) :=
  list_prod (seqZ 0 (width imageData)) (seqZ 0 (height imageData)).

Definition unvisited (s : FillState) : nat :=
  length (filter (λ p, p ∉ fs_visited s) (pixelList (fs_img s))).

Definition fill_measure (s : FillState) : nat :=
  4 * unvisited s + length (fs_stack s).

(** The cursor invariant of the design document. *)
Definition cursor_in_range (st : App) : Prop :=
  history st ≠ [] →
  0 ≤ historyIndex st ≤ Z.of_nat (length (history st)) - 1.

(** States of the history that runs of the application reach: the cursor is
    -1 on the empty history and on an entry otherwise, and the snapshots are
    distinct objects allocated before [nextOid]. *)
Record history_wf (st : App) : Prop := {
  wf_capacity : 0 ≤ maxHistorySteps st;
  wf_cursor : -1 ≤ historyIndex st < Z.of_nat (length (history st));
  wf_cursor_entry : history st ≠ [] → 0 ≤ historyIndex st;
  wf_distinct : NoDup (oid <$> history st);
  wf_allocated : Forall (λ e, (oid e < nextOid st)%nat) (history st)
}.

(** The loop invariant of [floodFill] on the buffer [img0] it was called on:
    the visited pixels are reachable and are the ones repainted, and every
    fillable neighbour of a visited pixel is visited or waits on the stack. *)
Record fill_inv (img0 : ImageData) (targetColor fillColor : Color)
  (seed : Z * Z) (s : FillState) : Prop := {
  inv_oid : oid (fs_img s) = oid img0;
  inv_width : width (fs_img s) = width img0;
  inv_height : height (fs_img s) = height img0;
  inv_wf : buffer_wf (fs_img s);
  inv_sound : ∀ p, p ∈ fs_visited s → reachable img0 targetColor seed p;
  inv_pixels : ∀ p, inBounds img0 p = true →
    getPixelColor (fs_img s) p.1 p.2 =
    if bool_decide (p ∈ fs_visited s) then fillColor
    else getPixelColor img0 p.1 p.2;
  inv_closed : ∀ p q, p ∈ fs_visited s → adjacent p q →
    q ∈ fs_visited s ∨ q ∈ fs_stack s ∨ fillable img0 targetColor q = false;
  inv_seed :
    seed ∈ fs_visited s ∨ seed ∈ fs_stack s ∨
    fillable img0 targetColor seed = false;
  inv_stack : ∀ q, q ∈ fs_stack s →
    q = seed ∨ ∃ p, p ∈ fs_visited s ∧ adjacent p q
}.

(** The states a run of the application reaches, as far as the history is
    concerned: the constructor, completed history operations, and edits,
    which may allocate buffers but leave the history alone. *)
Inductive history_run : App → Prop :=
  | run_constructed cv : history_run (constructed cv)
  | run_saveState st st' :
      history_run st → saveState st = Done st' → history_run st'
  | run_undo st st' : history_run st → undo st = Done st' → history_run st'
  | run_redo st st' : history_run st → redo st = Done st' → history_run st'
  | run_edit st st' :
      history_run st →
      history st' = history st → historyIndex st' = historyIndex st →
      maxHistorySteps st' = maxHistorySteps st →
      (nextOid st ≤ nextOid st')%nat →
      history_run st'.

(** ** Tool selection and example states *)

(** [selectTool(tool)], without the toolbar and cursor updates. *)
Definition selectTool (tool : string) (st : App) : App :=
  mkApp (canvas st) (ctx st) (isDrawing st) tool (currentColor st)
    (brushSize st) (opacity st) (startX st) (startY st) (endX st) (endY st)
    (history st) (historyIndex st) (maxHistorySteps st) (nextOid st).

(** The state a method leaves, whether it returned or threw. *)
Definition stateOf (o : Outcome) : App :=
  match o with
  | Done st => st
  | Thrown _ st => st
  end.

(** A canvas of one white pixel. *)
Definition whitePixel : Canvas := mkCanvas 1 1 [255; 255; 255; 255].

(** The application over [whitePixel] after [n] calls of [saveState]. *)
Definition pushed (n : nat) : App :=
  stateOf (saveStates n (constructed whitePixel)).

(** A crude rasteriser for the examples: every drawing call turns the whole
    bitmap opaque black. *)
Definition blacken (cv : Canvas) : Canvas :=
  {| cv_width := cv_width cv; cv_height := cv_height cv;
     cv_bitmap := imap (λ i _, if (i mod 4 =? 3)%nat then 255 else 0)
                    (cv_bitmap cv) |}.

Definition inkRaster : Raster :=
  {| stroke := λ _ cv, blacken cv;
     strokeRect := λ _ _ _ _ _ cv, blacken cv;
     fillText := λ _ _ _ _ cv, blacken cv |}.

(** The pointer position (0, 0). *)
Definition origin : Point := mkPoint 0 0.

(** The stages of a gesture: the state [handleMouseDown] dispatches the tool
    on, the pointer tracking of the moves, and the release. *)
Definition pressed (pos : Point) (st : App) : App :=
  setupDrawingContext
    (set_end (pos_x pos) (pos_y pos)
       (set_start (pos_x pos) (pos_y pos) (set_isDrawing true st))).

Definition tracked (moves : list Point) (st : App) : App :=
  foldl (λ s pos, set_end (pos_x pos) (pos_y pos) s) st moves.

Definition released (st : App) : App := set_isDrawing false st.

(** [s] has the history, the allocation counter and the tool of [st]. *)
Definition same_history (st s : App) : Prop :=
  history s = history st ∧ historyIndex s = historyIndex st ∧
  maxHistorySteps s = maxHistorySteps st ∧ nextOid s = nextOid st ∧
  currentTool s = currentTool st.

(** The tools whose edit the release commits. *)
Definition drawingTool (tool : string) : Prop :=
  tool ∈ ["pencil"; "brush"; "eraser"; "line"; "rectangle"; "circle"]%string.

(** The cursor is on an entry, or there is no entry. *)
Definition cursor_on_entry (st : App) : Prop :=
  history st = [] ∨ 0 ≤ historyIndex st < Z.of_nat (length (history st)).

(** A buffer of three pixels in a row; the middle one has another colour. *)
Definition threePixels : ImageData :=
  mkImageData 0 3 1 [1; 1; 1; 1; 9; 9; 9; 9; 1; 1; 1; 1].

(** A buffer of two rows of two white pixels. *)
Definition whiteSquare : ImageData :=
  mkImageData 0 2 2
    [255; 255; 255; 255; 255; 255; 255; 255;
     255; 255; 255; 255; 255; 255; 255; 255].

(** The application over a canvas of two rows of two white pixels, after
    the first [saveState], with the fill tool selected. *)
Definition whiteSquareCanvas : Canvas := mkCanvas 2 2 (data whiteSquare).

Definition squareFill : App :=
  selectTool "fill" (stateOf (saveStates 1 (constructed whiteSquareCanvas))).


(** ** Further definitions *)

(** The part of a colour string after its optional leading [#]. *)
Definition afterHash (hex : string) : string :=
  match hex with
  | String "#" rest => rest
  | _ => hex
  end.

(** [n] calls of [undo], and of [redo], in a row. *)
Fixpoint undos (n : nat) (st : App) : Outcome :=
  match n with
  | O => Done st
  | S k => undo st >>> undos k
  end.

Fixpoint redos (n : nat) (st : App) : Outcome :=
  match n with
  | O => Done st
  | S k => redo st >>> redos k
  end.

(** The object [getImageData] makes of the whole canvas of [st]. *)
Definition snapshotOf (st : App) : ImageData :=
  {| oid := nextOid st; width := cv_width (canvas st);
     height := cv_height (canvas st); data := cv_bitmap (canvas st) |}.

(** The tool names [executeToolAction] knows. *)
Definition knownTools : list string :=
  ["pencil"; "brush"; "eraser"; "line"; "rectangle"; "circle"; "fill";
   "eyedropper"; "text"]%string.

(** The text has a character that [trim] keeps. *)
Definition hasInk (text : string) : bool :=
  existsb (λ c, negb (isWhitespace c)) (list_ascii_of_string text).

(** [String.prototype.toLowerCase] on one code unit below 256. *)
Definition toLowerCaseChar (c : ascii) : ascii :=
  let n := Z.of_N (N_of_ascii c) in
  if ((65 <=? n) && (n <=? 90)) || ((192 <=? n) && (n <=? 214)) ||
     ((216 <=? n) && (n <=? 222))
  then ascii_of_N (Z.to_N (n + 32))
  else c.

Fixpoint toLowerCase (s : string) : string :=
  match s with
  | EmptyString => EmptyString
  | String c rest => String (toLowerCaseChar c) (toLowerCase rest)
  end.

(** [handleKeyboard(e)] for an event with the given [ctrlKey], [metaKey] and
    [key].  [saveProject] and [showProjectsModal] only touch the page. *)
Definition handleKeyboard (ctrlKey metaKey : bool) (key : string) (st : App)
  : Outcome :=
  if ctrlKey || metaKey then
    let k := toLowerCase key in
    if String.eqb k "z" then undo st
    else if String.eqb k "y" then redo st
    else if String.eqb k "s" then Done st
    else if String.eqb k "o" then Done st
    else Done st
  else Done st.

(** * Properties *)

(** ** Pixel accessors *)

Lemma inBounds_spec imageData p :
  inBounds imageData p = true ↔
  0 ≤ p.1 < width imageData ∧ 0 ≤ p.2 < height imageData.
Proof. unfold inBounds. destruct p as [x y]; simpl. lia. Qed.

Lemma js_get_set_eq arr i v :
  0 ≤ i < Z.of_nat (length arr) →
  js_get (js_set arr i v) i = Some (toUint8Clamped v).
Proof.
  intros Hi. unfold js_get, js_set.
  destruct (i <? 0) eqn:Hneg; [lia|].
  apply list_lookup_insert_eq. lia.
Qed.

Lemma js_get_set_ne arr i j v :
  i ≠ j → js_get (js_set arr i v) j = js_get arr j.
Proof.
  intros Hne. unfold js_get, js_set.
  destruct (j <? 0) eqn:Hj; [done|].
  destruct (i <? 0) eqn:Hi; [done|].
  apply list_lookup_insert_ne. lia.
Qed.

Lemma length_js_set arr i v : length (js_set arr i v) = length arr.
Proof. unfold js_set. destruct (i <? 0); [done|]. apply length_insert. Qed.

Lemma setPixelColor_length imageData x y c :
  length (data (setPixelColor imageData x y c)) = length (data imageData).
Proof. unfold setPixelColor. simpl. by rewrite !length_js_set. Qed.

Lemma toUint8Clamped_byte n : 0 ≤ n ≤ 255 → toUint8Clamped (Some n) = n.
Proof. unfold toUint8Clamped. lia. Qed.

Lemma pixel_index_range imageData x y :
  buffer_wf imageData → inBounds imageData (x, y) = true →
  0 ≤ (y * width imageData + x) * 4 ∧
  (y * width imageData + x) * 4 + 3 < Z.of_nat (length (data imageData)).
Proof.
  intros (Hw & Hh & Hlen) Hb. apply inBounds_spec in Hb. simpl in Hb.
  rewrite Hlen. nia.
Qed.

Lemma pixel_index_inj w x y x' y' :
  0 ≤ x < w → 0 ≤ x' < w → 0 ≤ y → 0 ≤ y' →
  y * w + x = y' * w + x' → (x, y) = (x', y').
Proof.
  intros Hx Hx' Hy Hy' Heq.
  assert (y = y') as -> by nia.
  f_equal. lia.
Qed.

Lemma getPixelColor_set_same imageData x y c :
  buffer_wf imageData → inBounds imageData (x, y) = true → byteColor c →
  getPixelColor (setPixelColor imageData x y c) x y = c.
Proof.
  intros Hwf Hb (r & g & b & a & -> & Hr & Hg & Hb' & Ha).
  destruct (pixel_index_range _ _ _ Hwf Hb) as [Hlo Hhi].
  unfold getPixelColor, setPixelColor. simpl.
  set (i := (y * width imageData + x) * 4) in *.
  f_equal.
  - rewrite !js_get_set_ne by lia. rewrite js_get_set_eq by lia.
    by rewrite toUint8Clamped_byte.
  - rewrite !js_get_set_ne by lia.
    rewrite js_get_set_eq by (rewrite !length_js_set; lia).
    by rewrite toUint8Clamped_byte.
  - rewrite !js_get_set_ne by lia.
    rewrite js_get_set_eq by (rewrite !length_js_set; lia).
    by rewrite toUint8Clamped_byte.
  - rewrite js_get_set_eq by (rewrite !length_js_set; lia).
    by rewrite toUint8Clamped_byte.
Qed.

Lemma getPixelColor_set_other imageData x y x' y' c :
  inBounds imageData (x, y) = true → inBounds imageData (x', y') = true →
  (x, y) ≠ (x', y') →
  getPixelColor (setPixelColor imageData x y c) x' y' =
  getPixelColor imageData x' y'.
Proof.
  intros Hb Hb' Hne.
  apply inBounds_spec in Hb. apply inBounds_spec in Hb'. simpl in Hb, Hb'.
  assert (y * width imageData + x ≠ y' * width imageData + x') as Hidx.
  { intros Heq. apply Hne. eapply pixel_index_inj; [..|exact Heq]; lia. }
  unfold getPixelColor, setPixelColor. simpl.
  f_equal; by rewrite !js_get_set_ne by lia.
Qed.

Lemma setPixelColor_wf imageData x y c :
  buffer_wf imageData → buffer_wf (setPixelColor imageData x y c).
Proof.
  intros (Hw & Hh & Hlen). unfold buffer_wf.
  rewrite setPixelColor_length. done.
Qed.

Lemma strict_eq_refl u : strict_eq u u = true.
Proof. destruct u; simpl; [apply Z.eqb_refl|done]. Qed.

Lemma colorsEqual_refl c : colorsEqual c c = true.
Proof. unfold colorsEqual. by rewrite !strict_eq_refl. Qed.

Lemma strict_eq_eq u v : strict_eq u v = true ↔ u = v.
Proof.
  destruct u, v; simpl; try (split; congruence).
  rewrite Z.eqb_eq. split; congruence.
Qed.

Lemma colorsEqual_eq c1 c2 : colorsEqual c1 c2 = true ↔ c1 = c2.
Proof.
  unfold colorsEqual. rewrite !andb_true_iff, !strict_eq_eq.
  destruct c1, c2; simpl. split.
  - intros [[[-> ->] ->] ->]. done.
  - intros [= -> -> -> ->]. done.
Qed.

(** ** Flood fill: termination *)

Lemma elem_of_pixelList imageData p :
  p ∈ pixelList imageData ↔ inBounds imageData p = true.
Proof.
  unfold pixelList. rewrite <- list_cprod_list_prod, list_elem_of_cprod.
  rewrite !elem_of_seqZ, inBounds_spec. lia.
Qed.

Lemma setPixelColor_width imageData x y c :
  width (setPixelColor imageData x y c) = width imageData.
Proof. reflexivity. Qed.

Lemma setPixelColor_height imageData x y c :
  height (setPixelColor imageData x y c) = height imageData.
Proof. reflexivity. Qed.

Lemma filter_unvisited_shrinks (l : list (Z * Z)) (V : gset (Z * Z)) p :
  p ∈ l → p ∉ V →
  (length (filter (λ q, q ∉ {[p]} ∪ V) l) < length (filter (λ q, q ∉ V) l))%nat.
Proof.
  intros Hin Hp.
  assert (Hle : ∀ k : list (Z * Z),
    (length (filter (λ q, q ∉ {[p]} ∪ V) k) ≤ length (filter (λ q, q ∉ V) k))%nat).
  { induction k as [|q k IH]; [done|].
    rewrite !filter_cons.
    destruct (decide (q ∉ {[p]} ∪ V)) as [H1|H1];
      destruct (decide (q ∉ V)) as [H2|H2]; simpl; try lia.
    exfalso. apply H2. set_solver. }
  induction l as [|q l IH]; [by apply elem_of_nil in Hin|].
  rewrite !filter_cons.
  apply elem_of_cons in Hin as [->|Hin].
  - destruct (decide (q ∉ {[q]} ∪ V)) as [H1|H1]; [exfalso; set_solver|].
    destruct (decide (q ∉ V)) as [H2|H2]; [|done].
    simpl. specialize (Hle l). lia.
  - specialize (IH Hin).
    destruct (decide (q ∉ {[p]} ∪ V)) as [H1|H1];
      destruct (decide (q ∉ V)) as [H2|H2]; simpl; try lia.
    exfalso. apply H2. set_solver.
Qed.

(** Every iteration on a non-empty stack lowers the variant. *)
Lemma floodFill_iteration_measure targetColor fillColor s :
  fs_stack s ≠ [] →
  (fill_measure (floodFill_iteration targetColor fillColor s) < fill_measure s)%nat.
Proof.
  intros Hne. unfold floodFill_iteration, fill_measure, unvisited.
  destruct (fs_stack s) as [|[x y] stack] eqn:Hst; [done|].
  destruct (negb (inBounds (fs_img s) (x, y))) eqn:Hb; [simpl; lia|].
  case_bool_decide as Hv; [simpl; lia|].
  destruct (negb (colorsEqual _ _)); [simpl; lia|].
  simpl. apply negb_false_iff in Hb.
  assert (Hpl : pixelList (setPixelColor (fs_img s) x y fillColor)
                = pixelList (fs_img s)) by reflexivity.
  rewrite Hpl.
  pose proof (filter_unvisited_shrinks (pixelList (fs_img s)) (fs_visited s) (x, y)
                (proj2 (elem_of_pixelList _ _) Hb) Hv).
  lia.
Qed.

Lemma floodFill_loop_enough targetColor fillColor fuel : ∀ s,
  (fill_measure s ≤ fuel)%nat →
  ∃ s', floodFill_loop fuel targetColor fillColor s = Some s' ∧ fs_stack s' = [].
Proof.
  induction fuel as [|fuel IH]; intros s Hm; simpl.
  - destruct (fs_stack s) eqn:Hst; [eauto|].
    unfold fill_measure in Hm. rewrite Hst in Hm. simpl in Hm. lia.
  - destruct (fs_stack s) eqn:Hst; [eauto|].
    apply IH.
    assert (fs_stack s ≠ []) as Hne by (rewrite Hst; done).
    pose proof (floodFill_iteration_measure targetColor fillColor s Hne). lia.
Qed.

Lemma floodFill_loop_more targetColor fillColor fuel : ∀ s s' extra,
  floodFill_loop fuel targetColor fillColor s = Some s' →
  floodFill_loop (fuel + extra) targetColor fillColor s = Some s'.
Proof.
  induction fuel as [|fuel IH]; intros s s' extra; simpl.
  - destruct (fs_stack s) eqn:Hst; [|done].
    intros H. destruct extra; simpl; by rewrite Hst.
  - destruct (fs_stack s) eqn:Hst; [done|]. apply IH.
Qed.

Lemma fill_measure_init imageData x y :
  (fill_measure (floodFill_init imageData x y) ≤ floodFill_budget imageData)%nat.
Proof.
  assert (unvisited (floodFill_init imageData x y)
          ≤ Z.to_nat (width imageData) * Z.to_nat (height imageData))%nat as Hu.
  { unfold unvisited. etrans; [apply length_filter|].
    unfold pixelList. simpl. by rewrite length_prod, !length_seqZ. }
  unfold fill_measure, floodFill_budget.
  change (length (fs_stack (floodFill_init imageData x y))) with 1%nat.
  lia.
Qed.

(** C10.  [floodFill] terminates on every buffer, seed and pair of colours:
    the loop empties its stack within [floodFill_budget] iterations (and any
    larger bound yields the same state), which is the buffer [floodFill]
    returns.  An iteration adds a coordinate to the visited set only when it
    lies inside the buffer and was not visited before, then pushes its four
    neighbours; the visited set never shrinks, so no coordinate is added
    twice. *)
Theorem floodFill_terminates imageData x y targetColor fillColor :
  (∃ s, floodFill_loop (floodFill_budget imageData) targetColor fillColor
          (floodFill_init imageData x y) = Some s ∧
        fs_stack s = [] ∧
        floodFill imageData x y targetColor fillColor = fs_img s ∧
        ∀ extra,
          floodFill_loop (floodFill_budget imageData + extra) targetColor
            fillColor (floodFill_init imageData x y) = Some s) ∧
  (∀ s p stack,
     fs_stack s = p :: stack →
     fs_visited s ⊆ fs_visited (floodFill_iteration targetColor fillColor s) ∧
     (fs_visited (floodFill_iteration targetColor fillColor s) ≠ fs_visited s →
      (p ∉ fs_visited s) ∧ inBounds (fs_img s) p = true ∧
      fs_visited (floodFill_iteration targetColor fillColor s)
        = {[p]} ∪ fs_visited s ∧
      fs_stack (floodFill_iteration targetColor fillColor s)
        = pushNeighbours p.1 p.2 stack)).
Proof.
  split.
  - destruct (floodFill_loop_enough targetColor fillColor _ _
                (fill_measure_init imageData x y)) as (s & Hs & Hst).
    exists s. split; [done|]. split; [done|]. split.
    + unfold floodFill. by rewrite Hs.
    + intros extra. by apply floodFill_loop_more.
  - intros s [px py] stack Hst. unfold floodFill_iteration. rewrite Hst.
    destruct (negb (inBounds (fs_img s) (px, py))) eqn:Hb; [simpl; split; done|].
    case_bool_decide as Hv; [simpl; split; done|].
    destruct (negb (colorsEqual _ _)); [simpl; split; done|].
    simpl. split; [set_solver|]. intros _.
    apply negb_false_iff in Hb. done.
Qed.

Lemma floodFill_terminates_witness :
  ∃ s, floodFill_loop (floodFill_budget threePixels)
         (mkColor (Some 1) (Some 1) (Some 1) (Some 1))
         (mkColor (Some 7) (Some 7) (Some 7) (Some 7))
         (floodFill_init threePixels 0 0) = Some s ∧
       fs_stack s = [].
Proof.
  destruct (proj1 (floodFill_terminates threePixels 0 0
                     (mkColor (Some 1) (Some 1) (Some 1) (Some 1))
                     (mkColor (Some 7) (Some 7) (Some 7) (Some 7))))
    as (s & Hloop & Hstack & _).
  exists s. split; [exact Hloop|exact Hstack].
Defined.


(** ** Flood fill: the filled region *)

Lemma inBounds_dims img1 img2 p :
  width img1 = width img2 → height img1 = height img2 →
  inBounds img1 p = inBounds img2 p.
Proof. unfold inBounds. by intros -> ->. Qed.

Lemma fill_inv_init imageData targetColor fillColor x y :
  buffer_wf imageData →
  fill_inv imageData targetColor fillColor (x, y) (floodFill_init imageData x y).
Proof.
  intros Hwf. split; simpl; try done; set_solver.
Qed.

(** Dropping the top of the stack keeps the invariant when that pixel is
    visited already or cannot be filled. *)
Lemma fill_inv_skip img0 targetColor fillColor seed s p stack :
  fill_inv img0 targetColor fillColor seed s →
  fs_stack s = p :: stack →
  p ∈ fs_visited s ∨ fillable img0 targetColor p = false →
  fill_inv img0 targetColor fillColor seed
    {| fs_img := fs_img s; fs_visited := fs_visited s; fs_stack := stack |}.
Proof.
  intros [Hoid Hwd Hht Hbuf Hsound Hpix Hclosed Hseed Hstk] Hst Hp. split; simpl; try done.
  - intros p' q Hp' Hadj.
    destruct (Hclosed p' q Hp' Hadj) as [H|[H|H]]; auto.
    rewrite Hst in H. apply elem_of_cons in H as [->|H]; auto.
    destruct Hp; auto.
  - destruct Hseed as [H|[H|H]]; auto.
    rewrite Hst in H. apply elem_of_cons in H as [->|H]; auto.
    destruct Hp; auto.
  - intros q Hq. apply Hstk. rewrite Hst. by apply elem_of_cons; right.
Qed.

Lemma elem_of_pushNeighbours q x y stack :
  q ∈ pushNeighbours x y stack ↔ adjacent (x, y) q ∨ q ∈ stack.
Proof.
  unfold pushNeighbours, adjacent. rewrite !elem_of_cons. simpl. tauto.
Qed.

Lemma fill_inv_iteration img0 targetColor fillColor seed s :
  byteColor fillColor →
  fill_inv img0 targetColor fillColor seed s →
  fill_inv img0 targetColor fillColor seed
    (floodFill_iteration targetColor fillColor s).
Proof.
  intros Hfill Hinv. unfold floodFill_iteration.
  destruct (fs_stack s) as [|[x y] stack] eqn:Hst; [done|].
  pose proof Hinv as [Hoid Hwd Hht Hbuf Hsound Hpix Hclosed Hseed Hstk].
  assert (Hdims : inBounds (fs_img s) (x, y) = inBounds img0 (x, y))
    by by apply inBounds_dims.
  destruct (negb (inBounds (fs_img s) (x, y))) eqn:Hb.
  { eapply fill_inv_skip; [done..|]. right. unfold fillable.
    apply negb_true_iff in Hb. rewrite <- Hdims, Hb. done. }
  apply negb_false_iff in Hb.
  case_bool_decide as Hv.
  { eapply fill_inv_skip; [done..|]. by left. }
  assert (Hcur : getPixelColor (fs_img s) x y = getPixelColor img0 x y).
  { pose proof (Hpix (x, y)) as Hpx. simpl in Hpx.
    rewrite Hpx by congruence. by rewrite bool_decide_eq_false_2. }
  destruct (negb (colorsEqual _ _)) eqn:Hc.
  { eapply fill_inv_skip; [done..|]. right. unfold fillable. simpl.
    apply negb_true_iff in Hc. rewrite <- Hcur, Hc. apply andb_false_r. }
  apply negb_false_iff in Hc.
  assert (Hfillable : fillable img0 targetColor (x, y) = true).
  { unfold fillable. simpl. rewrite <- Hdims, Hb, <- Hcur, Hc. done. }
  assert (Hreach : reachable img0 targetColor seed (x, y)).
  { assert (Hin : (x, y) ∈ fs_stack s) by (rewrite Hst; apply elem_of_cons; by left).
    destruct (Hstk (x, y) Hin) as [<-|(p & Hp & Hadj)].
    - by apply reachable_seed.
    - eapply reachable_step; eauto. }
  split; simpl; try done.
  - by apply setPixelColor_wf.
  - intros p Hp. apply elem_of_union in Hp as [Hp|Hp]; [|by apply Hsound].
    apply elem_of_singleton in Hp as ->. done.
  - intros [px py] Hp. simpl.
    destruct (decide ((px, py) = (x, y))) as [Heq|Hne].
    + injection Heq as -> ->.
      rewrite bool_decide_eq_true_2 by set_solver.
      by apply getPixelColor_set_same.
    + rewrite getPixelColor_set_other; [| done | | congruence].
      2: { erewrite inBounds_dims; [exact Hp|done..]. }
      pose proof (Hpix (px, py) Hp) as Hpx. simpl in Hpx. rewrite Hpx.
      destruct (decide ((px, py) ∈ fs_visited s)) as [Hin|Hnin].
      * rewrite !bool_decide_eq_true_2; [done|set_solver|done].
      * rewrite !bool_decide_eq_false_2; [done|set_solver|done].
  - intros p q Hp Hadj. rewrite elem_of_pushNeighbours.
    apply elem_of_union in Hp as [Hp|Hp].
    + apply elem_of_singleton in Hp as ->. auto.
    + destruct (Hclosed p q Hp Hadj) as [H|[H|H]]; auto.
      * left. set_solver.
      * rewrite Hst in H. apply elem_of_cons in H as [->|H]; auto.
        left. set_solver.
  - rewrite elem_of_pushNeighbours.
    destruct Hseed as [H|[H|H]]; auto.
    + left. set_solver.
    + rewrite Hst in H. apply elem_of_cons in H as [->|H]; auto.
      left. set_solver.
  - intros q Hq. apply elem_of_pushNeighbours in Hq as [Hq|Hq].
    + right. exists (x, y). split; [set_solver|done].
    + assert (Hin : q ∈ fs_stack s) by (rewrite Hst; apply elem_of_cons; by right).
      destruct (Hstk q Hin) as [->|(p & Hp & Hadj)]; auto.
      right. exists p. split; [set_solver|done].
Qed.

Lemma fill_inv_loop img0 targetColor fillColor seed fuel : ∀ s s',
  byteColor fillColor →
  fill_inv img0 targetColor fillColor seed s →
  floodFill_loop fuel targetColor fillColor s = Some s' →
  fill_inv img0 targetColor fillColor seed s' ∧ fs_stack s' = [].
Proof.
  induction fuel as [|fuel IH]; intros s s' Hfill Hinv; simpl.
  - destruct (fs_stack s) eqn:Hst; [|done]. by intros [= <-].
  - destruct (fs_stack s) eqn:Hst; [by intros [= <-]|].
    apply IH; [done|]. by apply fill_inv_iteration.
Qed.

(** With the stack empty the visited set is closed under fillable
    neighbours, so it holds every reachable pixel. *)
Lemma fill_inv_complete img0 targetColor fillColor seed s p :
  fill_inv img0 targetColor fillColor seed s → fs_stack s = [] →
  reachable img0 targetColor seed p → p ∈ fs_visited s.
Proof.
  intros [Hoid Hwd Hht Hbuf Hsound Hpix Hclosed Hseed Hstk] Hst Hreach. induction Hreach as [Hfs|p q Hp IH Hadj Hq].
  - destruct Hseed as [H|[H|H]]; [done| |congruence].
    rewrite Hst in H. by apply elem_of_nil in H.
  - destruct (Hclosed p q IH Hadj) as [H|[H|H]]; [done| |congruence].
    rewrite Hst in H. by apply elem_of_nil in H.
Qed.

Lemma floodFill_run imageData x y targetColor fillColor :
  buffer_wf imageData → byteColor fillColor →
  ∃ s, floodFill imageData x y targetColor fillColor = fs_img s ∧
       fs_stack s = [] ∧
       fill_inv imageData targetColor fillColor (x, y) s.
Proof.
  intros Hwf Hfill.
  destruct (floodFill_loop_enough targetColor fillColor _ _
              (fill_measure_init imageData x y)) as (s & Hloop & Hst).
  exists s. split; [by unfold floodFill; rewrite Hloop|]. split; [done|].
  eapply fill_inv_loop; [done| |exact Hloop]. by apply fill_inv_init.
Qed.

(** The fill repaints the reachable pixels and no other. *)
Lemma floodFill_region imageData x y targetColor fillColor :
  buffer_wf imageData → byteColor fillColor →
  let filled := floodFill imageData x y targetColor fillColor in
  oid filled = oid imageData ∧ width filled = width imageData ∧
  height filled = height imageData ∧ buffer_wf filled ∧
  ∀ p, inBounds imageData p = true →
    (reachable imageData targetColor (x, y) p →
     getPixelColor filled p.1 p.2 = fillColor) ∧
    (¬ reachable imageData targetColor (x, y) p →
     getPixelColor filled p.1 p.2 = getPixelColor imageData p.1 p.2).
Proof.
  intros Hwf Hfill filled.
  destruct (floodFill_run imageData x y targetColor fillColor Hwf Hfill)
    as (s & Hres & Hst & Hinv).
  subst filled. rewrite Hres. pose proof Hinv as [Hoid Hwd Hht Hbuf Hsound Hpix Hclosed Hseed Hstk].
  repeat (split; [done|]).
  intros p Hp. rewrite (Hpix p Hp). split.
  - intros Hreach. rewrite bool_decide_eq_true_2; [done|].
    eapply fill_inv_complete; eauto.
  - intros Hnot. rewrite bool_decide_eq_false_2; [done|].
    intros Hin. apply Hnot. by apply Hsound.
Qed.


(** C2.  On a well-formed buffer and for a fill colour whose channels are
    bytes, whatever the seed and the target colour: [floodFill] keeps the
    dimensions of the buffer, gives the fill colour to every pixel joined to
    the seed by a 4-connected path of pixels of the target colour, and leaves
    every other pixel as it was.  A region of the target colour that is not
    4-connected to the seed is therefore unchanged. *)
Theorem floodFill_fills_reachable imageData x y targetColor fillColor :
  buffer_wf imageData → byteColor fillColor →
  let filled := floodFill imageData x y targetColor fillColor in
  width filled = width imageData ∧ height filled = height imageData ∧
  length (data filled) = length (data imageData) ∧
  ∀ p, inBounds imageData p = true →
    (reachable imageData targetColor (x, y) p →
     getPixelColor filled p.1 p.2 = fillColor) ∧
    (¬ reachable imageData targetColor (x, y) p →
     getPixelColor filled p.1 p.2 = getPixelColor imageData p.1 p.2).
Proof.
  intros Hwf Hfill filled.
  destruct (floodFill_region imageData x y targetColor fillColor Hwf Hfill)
    as (_ & Hw & Hh & (_ & _ & Hlen') & Hpix).
  fold filled in Hw, Hh, Hlen', Hpix.
  split; [done|]. split; [done|]. split; [|done].
  destruct Hwf as (_ & _ & Hlen). rewrite Hw, Hh in Hlen'. lia.
Qed.

Lemma floodFill_fills_reachable_witness :
  let imageData := threePixels in
  let targetColor := mkColor (Some 1) (Some 1) (Some 1) (Some 1) in
  let fillColor := mkColor (Some 7) (Some 7) (Some 7) (Some 7) in
  let filled := floodFill imageData 0 0 targetColor fillColor in
  width filled = width imageData ∧ height filled = height imageData ∧
  length (data filled) = length (data imageData) ∧
  ∀ p, inBounds imageData p = true →
    (reachable imageData targetColor (0, 0) p →
     getPixelColor filled p.1 p.2 = fillColor) ∧
    (¬ reachable imageData targetColor (0, 0) p →
     getPixelColor filled p.1 p.2 = getPixelColor imageData p.1 p.2).
Proof.
  intros imageData targetColor fillColor.
  apply (floodFill_fills_reachable imageData 0 0 targetColor fillColor).
  - unfold buffer_wf. simpl. lia.
  - exists 7, 7, 7, 7. split; [reflexivity|lia].
Defined.

(** Two regions of the target colour with another colour between them: the
    fill of the first leaves the second alone. *)
Example floodFill_two_regions :
  data (floodFill threePixels 0 0 (mkColor (Some 1) (Some 1) (Some 1) (Some 1))
          (mkColor (Some 7) (Some 7) (Some 7) (Some 7)))
  = [7; 7; 7; 7; 9; 9; 9; 9; 1; 1; 1; 1].
Proof. vm_compute. reflexivity. Qed.

(** ** Canvas transfers *)

Lemma js_get_lookup {A} (arr : list A) (i : nat) :
  js_get arr (Z.of_nat i) = arr !! i.
Proof.
  unfold js_get. destruct (Z.ltb_spec (Z.of_nat i) 0) as [H|H]; [lia|].
  by rewrite Nat2Z.id.
Qed.

(** Splitting a flat channel index into pixel coordinates and back. *)
Lemma channel_index_split w h i :
  0 < w → 0 ≤ i < 4 * w * h →
  let p := i / 4 in
  0 ≤ p mod w < w ∧ 0 ≤ p / w < h ∧
  (p / w * w + p mod w) * 4 + i mod 4 = i.
Proof.
  intros Hw Hi p. subst p.
  pose proof (Z.div_mod i 4 ltac:(lia)) as H4.
  pose proof (Z.mod_pos_bound i 4 ltac:(lia)) as Hm4.
  pose proof (Z.div_mod (i / 4) w ltac:(lia)) as Hdw.
  pose proof (Z.mod_pos_bound (i / 4) w Hw) as Hmw.
  assert (0 ≤ i / 4) by (apply Z.div_pos; lia).
  assert (0 ≤ i / 4 / w) by (apply Z.div_pos; lia).
  assert (i / 4 < w * h) by (apply Z.div_lt_upper_bound; lia).
  assert (i / 4 / w < h) by (apply Z.div_lt_upper_bound; lia).
  split; [lia|]. split; [lia|]. lia.
Qed.

Lemma fmap_seqZ_const_lookup (f : Z → Z) (l : list Z) :
  (∀ i : nat, (i < length l)%nat → Some (f (Z.of_nat i)) = l !! i) →
  f <$> seqZ 0 (Z.of_nat (length l)) = l.
Proof.
  intros Hf. apply list_eq. intros i. rewrite list_lookup_fmap.
  destruct (decide (i < length l)%nat) as [Hlt|Hge].
  - rewrite lookup_seqZ_lt by lia. simpl. rewrite Z.add_0_l. by apply Hf.
  - rewrite lookup_seqZ_ge by lia. simpl. symmetry. apply lookup_ge_None. lia.
Qed.

Lemma getImageData_full cv fresh :
  canvas_wf cv → cv_width cv ≠ 0 → cv_height cv ≠ 0 →
  getImageData cv fresh 0 0 (cv_width cv) (cv_height cv) =
  inr {| oid := fresh; width := cv_width cv; height := cv_height cv;
         data := cv_bitmap cv |}.
Proof.
  intros (Hw & Hh & Hlen) Hw0 Hh0. unfold getImageData.
  destruct (cv_width cv =? 0) eqn:E1; [lia|].
  destruct (cv_height cv =? 0) eqn:E2; [lia|]. simpl.
  f_equal. f_equal. rewrite <- Hlen.
  apply fmap_seqZ_const_lookup. intros i Hi.
  destruct (channel_index_split (cv_width cv) (cv_height cv) (Z.of_nat i))
    as (Hx & Hy & Hidx); [lia|lia|].
  rewrite !Z.add_0_l.
  rewrite (proj2 (Z.leb_le _ _) (proj1 Hx)), (proj2 (Z.ltb_lt _ _) (proj2 Hx)),
    (proj2 (Z.leb_le _ _) (proj1 Hy)), (proj2 (Z.ltb_lt _ _) (proj2 Hy)).
  simpl andb. cbv iota.
  rewrite Hidx, js_get_lookup.
  destruct (lookup_lt_is_Some_2 (cv_bitmap cv) i Hi) as [v ->]. done.
Qed.

Lemma putImageData_full imageData cv :
  canvas_wf cv → buffer_wf imageData →
  width imageData = cv_width cv → height imageData = cv_height cv →
  putImageData imageData cv =
  {| cv_width := cv_width cv; cv_height := cv_height cv;
     cv_bitmap := data imageData |}.
Proof.
  intros (Hw & Hh & Hlen) (Hiw & Hih & Hilen) Hwe Hhe.
  unfold putImageData. f_equal.
  assert (length (cv_bitmap cv) = length (data imageData)) as Hll by lia.
  rewrite Hll. apply fmap_seqZ_const_lookup. intros i Hi.
  assert (0 < cv_width cv) as Hwpos by nia.
  destruct (channel_index_split (cv_width cv) (cv_height cv) (Z.of_nat i))
    as (Hx & Hy & Hidx); [lia|lia|].
  rewrite Hwe, Hhe.
  rewrite (proj2 (Z.ltb_lt _ _) (proj2 Hx)), (proj2 (Z.ltb_lt _ _) (proj2 Hy)).
  simpl andb. cbv iota.
  rewrite Hidx, !js_get_lookup.
  destruct (lookup_lt_is_Some_2 (data imageData) i Hi) as [v ->]. done.
Qed.

(** ** The fill colour *)

Lemma hexDigit_range c n : hexDigit c = Some n → 0 ≤ n ≤ 15.
Proof.
  unfold hexDigit. generalize (Z.of_N (N_of_ascii c)). intros k.
  destruct (Z.leb_spec 48 k), (Z.leb_spec k 57), (Z.leb_spec 97 k),
    (Z.leb_spec k 102), (Z.leb_spec 65 k), (Z.leb_spec k 70);
    simpl; intros [= <-]; lia.
Qed.

Lemma parseHexPair_range c1 c2 n : parseHexPair c1 c2 = Some n → 0 ≤ n ≤ 255.
Proof.
  unfold parseHexPair.
  destruct (hexDigit c1) as [h|] eqn:H1; [|done].
  destruct (hexDigit c2) as [l|] eqn:H2; [|done].
  apply hexDigit_range in H1, H2. intros [= <-]. lia.
Qed.

Lemma Math_round_alpha (q : Q) :
  (0 <= q)%Q → (q <= 1)%Q → 0 ≤ Math_round (q * 255) ≤ 255.
Proof.
  intros H0 H1. unfold Math_round. split.
  - change 0 with (Qfloor 0). apply Qfloor_resp_le.
    apply Qle_trans with (0 * 255 + (1 # 2))%Q; [done|].
    apply Qplus_le_l. apply Qmult_le_compat_r; done.
  - change 255 with (Qfloor (1 * 255 + (1 # 2))). apply Qfloor_resp_le.
    apply Qplus_le_l. apply Qmult_le_compat_r; done.
Qed.

Lemma hexToRgba_byteColor (opacity : Q) hex :
  (0 <= opacity)%Q → (opacity <= 1)%Q → byteColor (hexToRgba opacity hex).
Proof.
  intros H0 H1. unfold hexToRgba, byteColor.
  set (digits := match hex with String "#" rest => rest | _ => hex end).
  destruct (list_ascii_of_string digits) as [|c1 [|c2 [|c3 [|c4 [|c5 [|c6 [|]]]]]]];
    try (by exists 0, 0, 0, 255).
  destruct (parseHexPair c1 c2) as [r|] eqn:Hr; [|by exists 0, 0, 0, 255].
  destruct (parseHexPair c3 c4) as [g|] eqn:Hg; [|by exists 0, 0, 0, 255].
  destruct (parseHexPair c5 c6) as [b|] eqn:Hb; [|by exists 0, 0, 0, 255].
  exists r, g, b, (Math_round (opacity * 255)).
  apply parseHexPair_range in Hr, Hg, Hb.
  pose proof (Math_round_alpha opacity H0 H1). done.
Qed.

(** An opaque fill colour has byte channels, whatever the opacity. *)
Lemma hexToRgba_opaque_byteColor (opacity : Q) hex :
  opaqueColor (hexToRgba opacity hex) → byteColor (hexToRgba opacity hex).
Proof.
  unfold hexToRgba, opaqueColor, byteColor.
  set (digits := match hex with String "#" rest => rest | _ => hex end).
  destruct (list_ascii_of_string digits) as [|c1 [|c2 [|c3 [|c4 [|c5 [|c6 [|]]]]]]];
    try (by exists 0, 0, 0, 255).
  destruct (parseHexPair c1 c2) as [r|] eqn:Hr; [|by exists 0, 0, 0, 255].
  destruct (parseHexPair c3 c4) as [g|] eqn:Hg; [|by exists 0, 0, 0, 255].
  destruct (parseHexPair c5 c6) as [b|] eqn:Hb; [|by exists 0, 0, 0, 255].
  simpl. intros [= Ha]. exists r, g, b, 255. rewrite Ha.
  apply parseHexPair_range in Hr, Hg, Hb. done.
Qed.


(** ** History *)

Lemma captureCanvas_oid st snap :
  captureCanvas st = inr snap → oid snap = nextOid st.
Proof.
  unfold captureCanvas, getImageData.
  destruct (_ || _); [done|]. by intros [= <-].
Qed.

(** What a completed [saveState] leaves: [k] entries evicted from the front,
    the entries up to the cursor kept, the new snapshot appended. *)
Lemma saveState_Done st st' :
  saveState st = Done st' →
  ∃ snap,
    let k := if Z.of_nat (length (history st)) >? maxHistorySteps st
             then 1%nat else 0%nat in
    captureCanvas st = inr snap ∧
    history st' =
      slice0 (drop k (history st)) (historyIndex st - Z.of_nat k + 1) ++ [snap] ∧
    historyIndex st' = Z.of_nat (length (history st')) - 1 ∧
    canvas st' = canvas st ∧ nextOid st' = S (nextOid st) ∧
    maxHistorySteps st' = maxHistorySteps st ∧
    currentTool st' = currentTool st ∧ currentColor st' = currentColor st ∧
    opacity st' = opacity st ∧ isDrawing st' = isDrawing st.
Proof.
  unfold saveState.
  destruct (Z.of_nat (length (history st)) >? maxHistorySteps st) eqn:Hev.
  - unfold captureCanvas. simpl.
    destruct (getImageData _ _ _ _ _ _) as [e|snap] eqn:Hcap; [done|].
    intros [= <-]. exists snap. simpl.
    destruct (history st); repeat split; reflexivity.
  - unfold captureCanvas.
    destruct (getImageData _ _ _ _ _ _) as [e|snap] eqn:Hcap; [done|].
    intros [= <-]. exists snap. simpl.
    rewrite Z.sub_0_r. repeat split; reflexivity.
Qed.

Lemma slice0_cursor (h : list ImageData) (idx : Z) (k : nat) :
  Z.of_nat k - 1 ≤ idx < Z.of_nat (length h) →
  slice0 (drop k h) (idx - Z.of_nat k + 1) = drop k (take (Z.to_nat (idx + 1)) h).
Proof.
  intros Hidx. unfold slice0. rewrite length_drop.
  destruct (Z.ltb_spec (idx - Z.of_nat k + 1) 0) as [?|_]; [lia|].
  rewrite take_drop_commute. f_equal. f_equal. lia.
Qed.

Lemma saveState_history st st' :
  history_wf st → saveState st = Done st' →
  ∃ snap (k : nat),
    captureCanvas st = inr snap ∧
    history st' =
      drop k (take (Z.to_nat (historyIndex st + 1)) (history st)) ++ [snap].
Proof.
  intros [Hcap [Hlo Hhi] Hentry _ _] Hsave.
  destruct (saveState_Done st st' Hsave) as (snap & Hc & Hh & _).
  exists snap. eexists. split; [done|]. rewrite Hh.
  f_equal. apply slice0_cursor.
  destruct (Z.gtb_spec (Z.of_nat (length (history st))) (maxHistorySteps st))
    as [Hgt|Hle]; [|simpl; lia].
  assert (history st ≠ []) as Hne by (intros E; rewrite E in Hgt; simpl in Hgt; lia).
  specialize (Hentry Hne). simpl. lia.
Qed.

Lemma saveState_cursor st st' :
  saveState st = Done st' →
  historyIndex st' = Z.of_nat (length (history st')) - 1 ∧ history st' ≠ [].
Proof.
  intros Hsave. destruct (saveState_Done st st' Hsave) as (snap & _ & Hh & Hi & _).
  split; [done|]. rewrite Hh. by destruct (slice0 _ _).
Qed.

Lemma redo_at_end st :
  historyIndex st = Z.of_nat (length (history st)) - 1 → redo st = Done st.
Proof.
  intros Hidx. unfold redo.
  destruct (Z.ltb_spec (historyIndex st) (Z.of_nat (length (history st)) - 1));
    [lia|done].
Qed.

Lemma undo_at_start st : historyIndex st = 0 → undo st = Done st.
Proof. intros Hidx. unfold undo. by rewrite Hidx. Qed.

Lemma putHistoryEntry_Done i st st' :
  putHistoryEntry i st = Done st' →
  ∃ snap, js_get (history st) i = Some snap ∧
          st' = set_canvas (putImageData snap (canvas st)) st.
Proof.
  unfold putHistoryEntry. destruct (js_get (history st) i) as [snap|]; [|done].
  intros [= <-]. eauto.
Qed.

Lemma js_get_Some {A} (arr : list A) i x :
  js_get arr i = Some x → 0 ≤ i < Z.of_nat (length arr) ∧ arr !! Z.to_nat i = Some x.
Proof.
  unfold js_get. destruct (Z.ltb_spec i 0) as [|Hi]; [done|].
  intros Hl. split; [|done]. apply lookup_lt_Some in Hl. lia.
Qed.

Lemma js_get_in_range {A} (arr : list A) i :
  0 ≤ i < Z.of_nat (length arr) → ∃ x, js_get arr i = Some x.
Proof.
  intros Hi. unfold js_get. destruct (Z.ltb_spec i 0) as [|_]; [lia|].
  apply lookup_lt_is_Some_2. lia.
Qed.

(** The shape of a completed [undo] and [redo]. *)
Lemma undo_Done st st' :
  undo st = Done st' →
  history st' = history st ∧ nextOid st' = nextOid st ∧
  maxHistorySteps st' = maxHistorySteps st ∧
  ((historyIndex st ≤ 0 ∧ st' = st) ∨
   (0 < historyIndex st ≤ Z.of_nat (length (history st)) ∧
    historyIndex st' = historyIndex st - 1)).
Proof.
  unfold undo. destruct (Z.gtb_spec (historyIndex st) 0) as [Hgt|Hle].
  - intros H. apply putHistoryEntry_Done in H as (snap & Hget & ->).
    simpl in *. apply js_get_Some in Hget as [Hr _].
    repeat split; try done. right. lia.
  - intros [= <-]. repeat split; try done. left. done.
Qed.

Lemma redo_Done st st' :
  redo st = Done st' →
  history st' = history st ∧ nextOid st' = nextOid st ∧
  maxHistorySteps st' = maxHistorySteps st ∧
  ((Z.of_nat (length (history st)) - 1 ≤ historyIndex st ∧ st' = st) ∨
   (-1 ≤ historyIndex st < Z.of_nat (length (history st)) - 1 ∧
    historyIndex st' = historyIndex st + 1)).
Proof.
  unfold redo.
  destruct (Z.ltb_spec (historyIndex st) (Z.of_nat (length (history st)) - 1))
    as [Hlt|Hge].
  - intros H. apply putHistoryEntry_Done in H as (snap & Hget & ->).
    simpl in *. apply js_get_Some in Hget as [Hr _].
    repeat split; try done. right. lia.
  - intros [= <-]. repeat split; try done. left. done.
Qed.

(** [history_wf] holds when the application starts and every completed
    operation on the history keeps it. *)
Lemma constructed_wf cv : history_wf (constructed cv).
Proof.
  split; simpl; try lia; try done.
  - constructor.
Qed.

Lemma saveState_wf st st' :
  history_wf st → saveState st = Done st' → history_wf st'.
Proof.
  intros Hwf Hsave.
  destruct (saveState_cursor st st' Hsave) as [Hidx Hne].
  destruct (saveState_history st st' Hwf Hsave) as (snap & k & Hcap & Hh).
  destruct (saveState_Done st st' Hsave)
    as (_ & _ & _ & _ & _ & Hoid & Hmax & _).
  destruct Hwf as [Hcapacity Hcur Hentry Hdistinct Halloc].
  apply captureCanvas_oid in Hcap.
  assert (Hlen : (0 < length (history st'))%nat)
    by (destruct (history st'); [done|simpl; lia]).
  assert (Hsub : drop k (take (Z.to_nat (historyIndex st + 1)) (history st))
                 `sublist_of` history st).
  { etrans; [apply sublist_drop|apply sublist_take]. }
  split.
  - by rewrite Hmax.
  - lia.
  - lia.
  - rewrite Hh, fmap_app. apply NoDup_app. split; [|split].
    + eapply sublist_NoDup; [exact Hdistinct|]. by apply fmap_sublist.
    + intros o Ho Hin. apply list_elem_of_singleton in Hin. simpl in Hin.
      apply list_elem_of_fmap in Ho as (e & -> & He).
      rewrite Forall_forall in Halloc.
      assert (e ∈ history st) as He' by (eapply elem_of_sublist; eauto).
      specialize (Halloc e He'). lia.
    + simpl. apply NoDup_singleton.
  - rewrite Hh, Hoid. apply Forall_app. split.
    + rewrite Forall_forall in Halloc. apply Forall_forall. intros e He.
      assert (e ∈ history st) as He' by (eapply elem_of_sublist; eauto).
      specialize (Halloc e He'). lia.
    + apply Forall_singleton. lia.
Qed.

Lemma undo_wf st st' : history_wf st → undo st = Done st' → history_wf st'.
Proof.
  intros [Hcapacity Hcur Hentry Hdistinct Halloc] Hundo.
  destruct (undo_Done st st' Hundo) as (Hh & Hoid & Hmax & [[_ ->]|[Hr Hi]]);
    [by split|].
  split; rewrite ?Hh, ?Hoid, ?Hmax; try done; lia.
Qed.

Lemma redo_wf st st' : history_wf st → redo st = Done st' → history_wf st'.
Proof.
  intros [Hcapacity Hcur Hentry Hdistinct Halloc] Hredo.
  destruct (redo_Done st st' Hredo) as (Hh & Hoid & Hmax & [[_ ->]|[Hr Hi]]);
    [by split|].
  split; rewrite ?Hh, ?Hoid, ?Hmax; try done; lia.
Qed.


(** Every state of a run satisfies both invariants. *)
Lemma history_run_wf st : history_run st → history_wf st.
Proof.
  induction 1 as [cv|st st' _ IH Hop|st st' _ IH Hop|st st' _ IH Hop
                  |st st' _ IH Hh Hi Hm Hn].
  - apply constructed_wf.
  - by eapply saveState_wf.
  - by eapply undo_wf.
  - by eapply redo_wf.
  - destruct IH as [Hcapacity Hcur Hentry Hdistinct Halloc].
    split; rewrite ?Hh, ?Hi, ?Hm; try done.
    eapply Forall_impl; [exact Halloc|]. simpl. intros; lia.
Qed.

Lemma history_run_cursor st : history_run st → cursor_in_range st.
Proof.
  intros Hrun. destruct (history_run_wf st Hrun) as [_ Hcur Hentry _ _].
  intros Hne. specialize (Hentry Hne). lia.
Qed.

(** ** The fill tool *)


Lemma captureCanvas_full st :
  canvas_wf (canvas st) → 0 < cv_width (canvas st) → 0 < cv_height (canvas st) →
  captureCanvas st =
  inr {| oid := nextOid st; width := cv_width (canvas st);
         height := cv_height (canvas st); data := cv_bitmap (canvas st) |}.
Proof. intros Hwf Hw Hh. apply getImageData_full; [done|lia..]. Qed.


Lemma handleFloodFill_equal pos st imageData :
  captureCanvas st = inr imageData →
  colorsEqual
    (getPixelColor imageData (Math_floor (pos_x pos)) (Math_floor (pos_y pos)))
    (hexToRgba (opacity st) (currentColor st)) = true →
  handleFloodFill pos st = Done (set_nextOid (S (nextOid st)) st).
Proof. intros Hcap Heq. unfold handleFloodFill. rewrite Hcap. simpl. by rewrite Heq. Qed.





(** The scenario of the design document: one fill turns the white canvas
    into the stroke colour and pushes a snapshot; the same fill again
    changes neither the canvas nor the history. *)
Example fill_twice :
  let st := selectTool "fill" (pushed 1) in
  let st1 := stateOf (handleFloodFill origin st) in
  let st2 := stateOf (handleFloodFill origin st1) in
  cv_bitmap (canvas st) = [255; 255; 255; 255] ∧
  cv_bitmap (canvas st1) = [0; 0; 0; 255] ∧
  oid <$> history st1 = [0%nat; 2%nat] ∧
  canvas st2 = canvas st1 ∧ history st2 = history st1 ∧
  historyIndex st2 = historyIndex st1.
Proof. by vm_compute. Qed.

(** ** History: undo, redo and pruning *)

Lemma pushed_wf n : history_wf (pushed n).
Proof.
  unfold pushed.
  assert (∀ st, history_wf st → cv_width (canvas st) = 1 →
                cv_height (canvas st) = 1 →
                history_wf (stateOf (saveStates n st))) as Hgen.
  { induction n as [|n IH]; intros st Hwf Hw Hh; [done|]. simpl.
    destruct (saveState st) as [st'|e st'] eqn:Hsave.
    - simpl. destruct (saveState_Done st st' Hsave) as (_ & _ & _ & _ & Hcv & _).
      apply IH; [by eapply saveState_wf|by rewrite Hcv..].
    - exfalso. revert Hsave. unfold saveState, captureCanvas, getImageData.
      destruct (_ >? _); simpl; rewrite Hw, Hh; done. }
  by apply Hgen; [apply constructed_wf|..].
Qed.

(** C4.  With the cursor on the last of at least two entries, [undo]
    followed by [redo] returns, restores the cursor, leaves the history
    sequence as it was, and repaints the canvas from the very entry that was
    current before the [undo]. *)
Theorem undo_redo_inverse st :
  historyIndex st = Z.of_nat (length (history st)) - 1 →
  2 ≤ Z.of_nat (length (history st)) →
  ∃ snap st1 st2,
    js_get (history st) (historyIndex st) = Some snap ∧
    undo st = Done st1 ∧ redo st1 = Done st2 ∧
    historyIndex st2 = historyIndex st ∧
    history st2 = history st ∧
    js_get (history st2) (historyIndex st2) = Some snap ∧
    st2 = set_canvas (putImageData snap (canvas st1)) st.
Proof.
  intros Hidx Hlen.
  destruct (js_get_in_range (history st) (historyIndex st)) as [snap Hsnap]; [lia|].
  destruct (js_get_in_range (history st) (historyIndex st - 1)) as [prev Hprev]; [lia|].
  exists snap.
  exists (set_canvas (putImageData prev (canvas st))
            (set_historyIndex (historyIndex st - 1) st)).
  eexists. split; [done|]. split; [|split].
  - unfold undo. destruct (Z.gtb_spec (historyIndex st) 0); [|lia].
    unfold putHistoryEntry. simpl. by rewrite Hprev.
  - unfold redo. simpl.
    destruct (Z.ltb_spec (historyIndex st - 1) (Z.of_nat (length (history st)) - 1));
      [|lia].
    unfold putHistoryEntry. simpl.
    replace (historyIndex st - 1 + 1) with (historyIndex st) by lia.
    rewrite Hsnap. reflexivity.
  - simpl. repeat split; done.
Qed.

Lemma undo_redo_inverse_witness :
  ∃ snap st1 st2,
    js_get (history (pushed 3)) (historyIndex (pushed 3)) = Some snap ∧
    undo (pushed 3) = Done st1 ∧ redo st1 = Done st2 ∧
    historyIndex st2 = historyIndex (pushed 3) ∧
    history st2 = history (pushed 3) ∧
    js_get (history st2) (historyIndex st2) = Some snap ∧
    st2 = set_canvas (putImageData snap (canvas st1)) (pushed 3).
Proof. apply (undo_redo_inverse (pushed 3)); vm_compute; [reflexivity|discriminate]. Defined.

(** C5.  [undo] with the cursor at 0 and [redo] with the cursor on the last
    entry return without throwing and leave the whole state (cursor, history,
    canvas) unchanged. *)
Theorem undo_redo_boundaries st :
  (historyIndex st = 0 → undo st = Done st) ∧
  (historyIndex st = Z.of_nat (length (history st)) - 1 → redo st = Done st).
Proof. split; [apply undo_at_start|apply redo_at_end]. Qed.

Lemma undo_redo_boundaries_witness :
  undo (pushed 1) = Done (pushed 1) ∧ redo (pushed 1) = Done (pushed 1).
Proof.
  split.
  - apply (proj1 (undo_redo_boundaries (pushed 1))). reflexivity.
  - apply (proj2 (undo_redo_boundaries (pushed 1))). reflexivity.
Defined.

(** C6.  On a well-formed history, a completed [saveState] leaves the
    cursor on the last entry; the history is then a segment of the entries up
    to the old cursor followed by the new snapshot, so no entry that stood
    after the old cursor survives, and [redo] is a no-op.  In particular
    after two [undo]s ([s0] to [s1] to [st]) and a [saveState], the entries
    that were undone are gone. *)
Theorem saveState_prunes_redo_branch s0 s1 st st' :
  history_wf st → saveState st = Done st' →
  historyIndex st' = Z.of_nat (length (history st')) - 1 ∧
  (∃ snap (k : nat),
     oid snap = nextOid st ∧
     history st' =
       drop k (take (Z.to_nat (historyIndex st + 1)) (history st)) ++ [snap]) ∧
  (∀ i e, historyIndex st < i → js_get (history st) i = Some e →
          e ∉ history st') ∧
  redo st' = Done st' ∧
  (undo s0 = Done s1 → undo s1 = Done st →
   ∀ i e, historyIndex st < i → js_get (history s0) i = Some e →
          e ∉ history st').
Proof.
  intros Hwf Hsave.
  destruct (saveState_cursor st st' Hsave) as [Hidx _].
  destruct (saveState_history st st' Hwf Hsave) as (snap & k & Hcap & Hh).
  apply captureCanvas_oid in Hcap.
  assert (Hgone : ∀ i e, historyIndex st < i → js_get (history st) i = Some e →
                         e ∉ history st').
  { intros i e Hi Hget Hin. destruct Hwf as [_ Hcur _ Hdistinct Halloc].
    apply js_get_Some in Hget as [Hir Hget].
    rewrite Hh in Hin. apply elem_of_app in Hin as [Hin|Hin].
    - assert (e ∈ take (Z.to_nat (historyIndex st + 1)) (history st)) as Hin'
        by (eapply elem_of_sublist; [exact Hin|apply sublist_drop]).
      apply elem_of_take in Hin' as (j & Hj & Hlt).
      assert (Z.to_nat i = j); [|lia].
      eapply (NoDup_lookup (oid <$> history st) _ _ (oid e)); [done|..];
        rewrite list_lookup_fmap; [by rewrite Hget|by rewrite Hj].
    - apply list_elem_of_singleton in Hin as ->.
      rewrite Forall_forall in Halloc.
      specialize (Halloc snap (list_elem_of_lookup_2 _ _ _ Hget)). lia. }
  split; [done|]. split; [eauto|]. split; [done|]. split; [by apply redo_at_end|].
  intros Hu0 Hu1 i e Hi Hget. apply (Hgone i e Hi).
  destruct (undo_Done _ _ Hu0) as (H0 & _). destruct (undo_Done _ _ Hu1) as (H1 & _).
  by rewrite H1, H0.
Qed.


(** Three snapshots, two of them undone. *)
Lemma saveState_prunes_redo_branch_witness :
  let s0 := pushed 3 in
  let s1 := stateOf (undo s0) in
  let st := stateOf (undo s1) in
  let st' := stateOf (saveState st) in
  historyIndex st' = Z.of_nat (length (history st')) - 1 ∧
  (∃ snap (k : nat),
     oid snap = nextOid st ∧
     history st' =
       drop k (take (Z.to_nat (historyIndex st + 1)) (history st)) ++ [snap]) ∧
  (∀ i e, historyIndex st < i → js_get (history st) i = Some e →
          e ∉ history st') ∧
  redo st' = Done st' ∧
  (undo s0 = Done s1 → undo s1 = Done st →
   ∀ i e, historyIndex st < i → js_get (history s0) i = Some e →
          e ∉ history st').
Proof.
  intros s0 s1 st st'.
  apply (saveState_prunes_redo_branch s0 s1 st st').
  - apply (undo_wf s1 st); [|vm_compute; reflexivity].
    apply (undo_wf s0 s1); [|vm_compute; reflexivity].
    apply pushed_wf.
  - vm_compute. reflexivity.
Defined.

(** C7.  After every completed [saveState] the history is non-empty and
    [0 <= historyIndex <= history.length - 1]; every completed [undo] and
    [redo] keeps that invariant. *)
Theorem cursor_in_range_preserved st st' :
  (saveState st = Done st' → cursor_in_range st' ∧ history st' ≠ []) ∧
  (cursor_in_range st → undo st = Done st' ∨ redo st = Done st' →
   cursor_in_range st').
Proof.
  split.
  - intros Hsave. destruct (saveState_cursor st st' Hsave) as [Hidx Hne].
    split; [|done]. intros _.
    destruct (history st'); [done|]. simpl in *. lia.
  - intros Hinv [Hundo|Hredo] Hne.
    + destruct (undo_Done st st' Hundo) as (Hh & _ & _ & [[_ ->]|[Hr Hi]]);
        [by apply Hinv|].
      rewrite Hh in *. specialize (Hinv Hne). lia.
    + destruct (redo_Done st st' Hredo) as (Hh & _ & _ & [[_ ->]|[Hr Hi]]);
        [by apply Hinv|].
      rewrite Hh in *. lia.
Qed.

Lemma cursor_in_range_constructed cv : cursor_in_range (constructed cv).
Proof. intros Hne. done. Qed.

Lemma cursor_in_range_preserved_witness :
  cursor_in_range (stateOf (saveState (pushed 2))) ∧
  cursor_in_range (stateOf (undo (pushed 2))).
Proof.
  split.
  - apply (proj1 (cursor_in_range_preserved (pushed 2)
                    (stateOf (saveState (pushed 2))))).
    vm_compute. reflexivity.
  - apply (proj2 (cursor_in_range_preserved (pushed 2)
                    (stateOf (undo (pushed 2))))).
    + intros _. vm_compute. split; discriminate.
    + left. vm_compute. reflexivity.
Defined.

(** Pushing onto a history whose cursor is on the newest entry: the length
    grows by one until it has passed [maxHistorySteps], and stays there. *)
Lemma saveState_length st st' :
  history_wf st →
  historyIndex st = Z.of_nat (length (history st)) - 1 →
  saveState st = Done st' →
  Z.of_nat (length (history st')) =
  if Z.of_nat (length (history st)) >? maxHistorySteps st
  then Z.of_nat (length (history st))
  else Z.of_nat (length (history st)) + 1.
Proof.
  intros [Hcap Hcur Hentry _ _] Hidx Hsave.
  destruct (saveState_Done st st' Hsave) as (snap & _ & Hh & _).
  rewrite Hh, length_app. simpl length.
  destruct (Z.gtb_spec (Z.of_nat (length (history st))) (maxHistorySteps st))
    as [Hgt|Hle].
  - rewrite slice0_cursor by (simpl; lia).
    rewrite length_drop, length_take. lia.
  - rewrite slice0_cursor by (simpl; lia).
    rewrite length_drop, length_take. lia.
Qed.

Lemma saveStates_length n : ∀ st,
  history_wf st →
  historyIndex st = Z.of_nat (length (history st)) - 1 →
  cv_width (canvas st) ≠ 0 → cv_height (canvas st) ≠ 0 →
  Z.of_nat (length (history st)) ≤ maxHistorySteps st + 1 →
  ∃ st', saveStates n st = Done st' ∧
         historyIndex st' = Z.of_nat (length (history st')) - 1 ∧
         Z.of_nat (length (history st')) =
           Z.min (Z.of_nat (length (history st)) + Z.of_nat n)
                 (maxHistorySteps st + 1).
Proof.
  induction n as [|n IH]; intros st Hwf Hidx Hw Hh Hlen.
  - exists st. simpl. repeat split; [done|lia].
  - simpl. destruct (saveState st) as [st1|e st1] eqn:Hsave.
    + pose proof (saveState_length st st1 Hwf Hidx Hsave) as Hl.
      destruct (saveState_Done st st1 Hsave)
        as (_ & _ & _ & Hi1 & Hcv & _ & Hmax & _).
      destruct (IH st1) as (st' & Hrun & Hi' & Hl');
        [by eapply saveState_wf|done|by rewrite Hcv..| |].
      * rewrite Hmax, Hl.
        destruct (Z.gtb_spec (Z.of_nat (length (history st))) (maxHistorySteps st));
          lia.
      * exists st'. simpl. split; [done|]. split; [done|].
        rewrite Hl', Hmax, Hl.
        destruct (Z.gtb_spec (Z.of_nat (length (history st))) (maxHistorySteps st));
          lia.
    + exfalso. revert Hsave. unfold saveState, captureCanvas, getImageData.
      destruct (_ >? _); simpl;
        destruct (Z.eqb_spec (cv_width (canvas st)) 0);
        destruct (Z.eqb_spec (cv_height (canvas st)) 0); done.
Qed.

(** C1.  From the empty history of a new application
    ([maxHistorySteps] = 50), 55 calls of [saveState] leave 51 entries, not
    50, with the cursor at 50, not 49, and only the 4 oldest snapshots
    evicted: the entries left are the objects allocated 5th to 55th. *)
Theorem saveStates_capacity_plus_5 :
  maxHistorySteps (constructed whitePixel) = 50 ∧
  ∃ st, saveStates 55 (constructed whitePixel) = Done st ∧
        length (history st) = 51%nat ∧
        historyIndex st = 50 ∧
        oid <$> history st = seq 4 51.
Proof. split; [reflexivity|]. eexists. split; [vm_compute; reflexivity|]. by vm_compute. Qed.


(** ** Gestures *)

Section Gestures.
Context `{R : Raster}.

Lemma handleMouseMoves_Thrown moves e st :
  foldl (λ o pos, o >>> handleMouseMove pos) (Thrown e st) moves = Thrown e st.
Proof. induction moves as [|pos moves IH]; [done|]. simpl. apply IH. Qed.

Lemma handleMouseMoves_cons pos moves st :
  handleMouseMoves (pos :: moves) st = handleMouseMove pos st >>> handleMouseMoves moves.
Proof.
  unfold handleMouseMoves. simpl.
  destruct (handleMouseMove pos st) as [s|e s]; simpl; [done|].
  apply handleMouseMoves_Thrown.
Qed.

(** The moves of a text gesture only track the pointer. *)
Lemma handleMouseMoves_text moves : ∀ st,
  currentTool st = "text"%string → isDrawing st = true →
  handleMouseMoves moves st = Done (tracked moves st).
Proof.
  induction moves as [|pos moves IH]; intros st Htool Hdraw; [done|].
  rewrite handleMouseMoves_cons.
  unfold handleMouseMove. rewrite Hdraw.
  unfold executeToolAction, isTool. simpl currentTool. rewrite Htool. simpl.
  by apply IH.
Qed.

Lemma tracked_fields moves : ∀ st,
  same_history st (tracked moves st) ∧
  canvas (tracked moves st) = canvas st ∧
  isDrawing (tracked moves st) = isDrawing st.
Proof.
  induction moves as [|pos moves IH]; intros st; [done|].
  simpl. destruct (IH (set_end (pos_x pos) (pos_y pos) st)) as ((?&?&?&?&?)&?&?).
  done.
Qed.

(** A text gesture: the tool runs at the press, and the release saves the
    state whatever the tool did. *)
Lemma gesture_text down answer moves up st :
  currentTool st = "text"%string →
  gesture down answer moves up st =
  handleTextTool down answer (pressed down st) >>>
    (λ s, saveState (released (tracked moves s))).
Proof.
  intros Htool. unfold gesture, handleMouseDown.
  fold (pressed down st).
  unfold executeToolAction at 1. unfold isTool. simpl currentTool.
  rewrite Htool. simpl.
  destruct (handleTextTool down answer (pressed down st)) as [s|e s] eqn:Htext;
    [|done].
  assert (currentTool s = "text"%string ∧ isDrawing s = true) as [Hts Hds].
  { revert Htext. unfold handleTextTool.
    destruct answer as [text|]; [|by intros [= <-]].
    destruct (truthy text && truthy (trim text)); [|by intros [= <-]].
    intros Hsave. apply saveState_Done in Hsave
      as (_ & _ & _ & _ & _ & _ & _ & -> & _ & _ & ->). done. }
  simpl. rewrite handleMouseMoves_text by done. simpl.
  destruct (tracked_fields moves s) as ((_&_&_&_&Htt)&_&Hdt).
  unfold handleMouseUp. rewrite Hdt, Hds. simpl.
  unfold executeToolAction, isTool. simpl currentTool. rewrite Htt, Hts. simpl.
  by rewrite Htt, Hts.
Qed.

(** No text entered: nothing is drawn, and the release still pushes. *)
Lemma gesture_text_blank down answer moves up st :
  currentTool st = "text"%string →
  match answer with
  | Some text => truthy text && truthy (trim text) = false
  | None => True
  end →
  gesture down answer moves up st =
    saveState (released (tracked moves (pressed down st))) ∧
  canvas (released (tracked moves (pressed down st))) = canvas st ∧
  same_history st (released (tracked moves (pressed down st))).
Proof.
  intros Htool Hblank. rewrite gesture_text by done. split.
  - unfold handleTextTool. destruct answer as [text|]; [|done].
    by rewrite Hblank.
  - destruct (tracked_fields moves (pressed down st)) as ((?&?&?&?&?)&?&?).
    done.
Qed.

(** Text entered: [handleTextTool] pushes the stamped canvas and the release
    pushes it again. *)
Lemma gesture_text_stamp down text moves up st :
  currentTool st = "text"%string →
  truthy text && truthy (trim text) = true →
  ∃ stamped,
    same_history st stamped ∧
    gesture down (Some text) moves up st =
      saveState stamped >>> (λ s, saveState (released (tracked moves s))) ∧
    (∀ s, same_history s (released (tracked moves s)) ∧
          canvas (released (tracked moves s)) = canvas s).
Proof.
  intros Htool Htext. rewrite gesture_text by done.
  unfold handleTextTool. rewrite Htext.
  eexists. split; [|split; [reflexivity|]].
  - done.
  - intros s. destruct (tracked_fields moves s) as ((?&?&?&?&?)&?&?). done.
Qed.

End Gestures.

(** C8.  A whole text-tool gesture whose prompt returns a whitespace-only
    string, or is cancelled, draws nothing, yet the release pushes a
    snapshot: the history grows from one entry to two and the cursor moves
    from 0 to 1. *)
Theorem text_gesture_blank_pushes_snapshot :
  let st := selectTool "text" (pushed 1) in
  ∃ st',
    @gesture inkRaster origin (Some "   "%string) [] origin st = Done st' ∧
    @gesture inkRaster origin None [] origin st = Done st' ∧
    canvas st' = canvas st ∧
    (oid <$> history st, historyIndex st) = ([0%nat], 0) ∧
    (oid <$> history st', historyIndex st') = ([0%nat; 1%nat], 1).
Proof. eexists. split; [vm_compute; reflexivity|]. by vm_compute. Qed.

(** C9.  A whole text-tool gesture that stamps a non-empty text appends two
    snapshots of the same canvas, one in [handleTextTool] and one at the
    release, not one. *)
Theorem text_gesture_stamp_pushes_twice :
  let st := selectTool "text" (pushed 1) in
  ∃ st',
    @gesture inkRaster origin (Some "hi"%string) [] origin st = Done st' ∧
    (oid <$> history st, historyIndex st) = ([0%nat], 0) ∧
    (oid <$> history st', historyIndex st') = ([0%nat; 1%nat; 2%nat], 2) ∧
    data <$> history st' =
      [[255; 255; 255; 255]; [0; 0; 0; 255]; [0; 0; 0; 255]].
Proof. eexists. split; [vm_compute; reflexivity|]. by vm_compute. Qed.


Lemma same_history_refl st : same_history st st.
Proof. done. Qed.

Lemma same_history_trans st s1 s2 :
  same_history st s1 → same_history s1 s2 → same_history st s2.
Proof.
  unfold same_history. intros (?&?&?&?&?) (?&?&?&?&?).
  repeat split; congruence.
Qed.

Lemma cursor_on_entry_same st s :
  same_history st s → cursor_on_entry st → cursor_on_entry s.
Proof. unfold cursor_on_entry. intros (->&->&_). done. Qed.

Lemma redrawCanvas_ok st :
  cursor_on_entry st →
  ∃ s, redrawCanvas st = Done s ∧ same_history st s ∧ isDrawing s = isDrawing st ∧
       startX s = startX st ∧ startY s = startY st.
Proof.
  intros [Hnil|Hidx]; unfold redrawCanvas.
  - rewrite Hnil. simpl. by exists st.
  - destruct (_ && _); [|by exists st].
    unfold putHistoryEntry.
    destruct (js_get_in_range (history st) (historyIndex st) Hidx) as [snap ->].
    eexists. split; [done|]. done.
Qed.

Section DrawingGestures.
Context `{R : Raster}.

(** A drawing tool never touches the history, in any phase. *)
Lemma executeToolAction_drawing pos phase answer st :
  drawingTool (currentTool st) → cursor_on_entry st →
  ∃ s, executeToolAction pos phase answer st = Done s ∧
       same_history st s ∧ isDrawing s = isDrawing st.
Proof.
  intros Htool Hcur. unfold drawingTool in Htool.
  destruct (redrawCanvas_ok st Hcur) as (s1 & Hredraw & Hsame & Hdraw & _).
  unfold executeToolAction, isTool.
  repeat (apply elem_of_cons in Htool as [Htool|Htool]);
    [..|by apply elem_of_nil in Htool];
    rewrite Htool; simpl; destruct phase; simpl;
    try (eexists; split; [reflexivity|]; split;
         [unfold same_history; simpl; by rewrite ?Htool|done]);
    rewrite Hredraw; simpl; (eexists; split; [reflexivity|]);
    destruct Hsame as (?&?&?&?&?); unfold same_history; simpl;
    rewrite ?Htool; repeat split; congruence.
Qed.

Lemma handleMouseMoves_drawing moves : ∀ st,
  drawingTool (currentTool st) → cursor_on_entry st →
  ∃ s, handleMouseMoves moves st = Done s ∧
       same_history st s ∧ isDrawing s = isDrawing st.
Proof.
  induction moves as [|pos moves IH]; intros st Htool Hcur.
  { exists st. split; [reflexivity|]. split; [apply same_history_refl|reflexivity]. }
  rewrite handleMouseMoves_cons. unfold handleMouseMove.
  destruct (isDrawing st) eqn:Hd.
  - destruct (executeToolAction_drawing pos phase_move None
                (set_end (pos_x pos) (pos_y pos) st) Htool Hcur)
      as (s1 & -> & Hs1 & Hd1).
    cbn [andThen]. destruct (IH s1) as (s2 & -> & Hs2 & Hd2).
    + destruct Hs1 as (_&_&_&_&->). done.
    + eapply cursor_on_entry_same; [exact Hs1|done].
    + exists s2. split; [done|]. split.
      * eapply same_history_trans; [exact Hs1|done].
      * simpl in Hd1. congruence.
  - cbn [andThen]. destruct (IH st Htool Hcur) as (s2 & -> & Hs2 & Hd2).
    exists s2. split; [reflexivity|]. split; [assumption|congruence].
Qed.

(** A gesture with a drawing tool pushes exactly once, at the release. *)
Lemma gesture_drawing down answer moves up st :
  drawingTool (currentTool st) → cursor_on_entry st →
  ∃ s, same_history st s ∧ gesture down answer moves up st = saveState s.
Proof.
  intros Htool Hcur. unfold gesture, handleMouseDown. fold (pressed down st).
  destruct (executeToolAction_drawing down phase_start answer (pressed down st)
              Htool Hcur) as (s1 & -> & Hs1 & Hd1).
  cbn [andThen].
  assert (Htool1 : drawingTool (currentTool s1))
    by (destruct Hs1 as (_&_&_&_&->); done).
  assert (Hcur1 : cursor_on_entry s1)
    by (eapply cursor_on_entry_same; [exact Hs1|done]).
  destruct (handleMouseMoves_drawing moves s1 Htool1 Hcur1)
    as (s2 & -> & Hs2 & Hd2).
  cbn [andThen]. unfold handleMouseUp.
  replace (isDrawing s2) with true by (simpl in Hd1; congruence). cbn [negb].
  assert (Htool2 : drawingTool (currentTool s2))
    by (destruct Hs2 as (_&_&_&_&->); done).
  assert (Hcur2 : cursor_on_entry s2)
    by (eapply cursor_on_entry_same; [exact Hs2|done]).
  destruct (executeToolAction_drawing up phase_end None (set_isDrawing false s2)
              Htool2 Hcur2) as (s3 & -> & Hs3 & Hd3).
  cbn [andThen].
  assert (Hnot : negb (isTool "eyedropper" s3 || isTool "fill" s3) = true).
  { unfold isTool. destruct Hs3 as (_&_&_&_&->). simpl.
    unfold drawingTool in Htool2.
    repeat (apply elem_of_cons in Htool2 as [->|Htool2]); try done.
    by apply elem_of_nil in Htool2. }
  rewrite Hnot. exists s3. split; [|done].
  eapply same_history_trans; [exact Hs1|].
  eapply same_history_trans; [exact Hs2|]. exact Hs3.
Qed.

(** A fill gesture: the only push is the one inside [handleFloodFill]. *)
Lemma gesture_fill down answer moves up st :
  currentTool st = "fill"%string →
  gesture down answer moves up st =
  handleFloodFill down (pressed down st) >>>
    (λ s, Done (released (tracked moves s))).
Proof.
  intros Htool. unfold gesture, handleMouseDown. fold (pressed down st).
  unfold executeToolAction at 1. unfold isTool. simpl currentTool.
  rewrite Htool. simpl.
  destruct (handleFloodFill down (pressed down st)) as [s|e s] eqn:Hfill; [|done].
  assert (currentTool s = "fill"%string ∧ isDrawing s = true) as [Hts Hds].
  { revert Hfill. unfold handleFloodFill.
    destruct (captureCanvas _); [done|].
    destruct (colorsEqual _ _); [by intros [= <-]|].
    intros Hsave. apply saveState_Done in Hsave
      as (_ & _ & _ & _ & _ & _ & _ & -> & _ & _ & ->). done. }
  simpl.
  assert (∀ ms s0, currentTool s0 = "fill"%string → isDrawing s0 = true →
            handleMouseMoves ms s0 = Done (tracked ms s0)) as Hmoves.
  { induction ms as [|pos ms IH]; intros s0 Ht0 Hd0; [done|].
    rewrite handleMouseMoves_cons. unfold handleMouseMove. rewrite Hd0.
    unfold executeToolAction, isTool. simpl currentTool. rewrite Ht0. simpl.
    by apply IH. }
  rewrite Hmoves by done. simpl.
  destruct (tracked_fields moves s) as ((_&_&_&_&Htt)&_&Hdt).
  unfold handleMouseUp. rewrite Hdt, Hds. simpl.
  unfold executeToolAction, isTool. simpl currentTool. rewrite Htt, Hts. simpl.
  by rewrite Htt, Hts.
Qed.

End DrawingGestures.

(** * Further properties *)

(** ** Pixel accessors: round trip and bounds *)

(** X1.  On a well-formed buffer, writing a byte colour at a pixel inside
    the buffer and reading that pixel back returns the colour; the buffer
    stays well formed and every other pixel inside it reads as before. *)
Theorem setPixelColor_then_getPixelColor imageData x y c :
  buffer_wf imageData → inBounds imageData (x, y) = true → byteColor c →
  getPixelColor (setPixelColor imageData x y c) x y = c ∧
  buffer_wf (setPixelColor imageData x y c) ∧
  ∀ x' y', inBounds imageData (x', y') = true → (x', y') ≠ (x, y) →
    getPixelColor (setPixelColor imageData x y c) x' y' =
    getPixelColor imageData x' y'.
Proof.
  intros Hwf Hb Hc. split; [by apply getPixelColor_set_same|].
  split; [by apply setPixelColor_wf|].
  intros x' y' Hb' Hne. apply getPixelColor_set_other; [done..|congruence].
Qed.

Lemma setPixelColor_then_getPixelColor_witness :
  let c := mkColor (Some 7) (Some 7) (Some 7) (Some 7) in
  getPixelColor (setPixelColor threePixels 1 0 c) 1 0 = c ∧
  buffer_wf (setPixelColor threePixels 1 0 c) ∧
  ∀ x' y', inBounds threePixels (x', y') = true → (x', y') ≠ (1, 0) →
    getPixelColor (setPixelColor threePixels 1 0 c) x' y' =
    getPixelColor threePixels x' y'.
Proof.
  intros c. apply (setPixelColor_then_getPixelColor threePixels 1 0 c).
  - unfold buffer_wf. simpl. lia.
  - reflexivity.
  - exists 7, 7, 7, 7. split; [reflexivity|lia].
Defined.

(** X2.  What [setPixelColor] stores is clamped by the typed array: reading
    the pixel back gives each channel clamped to 0..255 (below 0 gives 0,
    above 255 gives 255), and an [undefined] channel is stored as 0. *)
Theorem setPixelColor_clamps imageData x y c :
  buffer_wf imageData → inBounds imageData (x, y) = true →
  getPixelColor (setPixelColor imageData x y c) x y =
  mkColor (Some (toUint8Clamped (c_r c))) (Some (toUint8Clamped (c_g c)))
          (Some (toUint8Clamped (c_b c))) (Some (toUint8Clamped (c_a c))) ∧
  (∀ n, n < 0 → toUint8Clamped (Some n) = 0) ∧
  (∀ n, 255 < n → toUint8Clamped (Some n) = 255) ∧
  toUint8Clamped None = 0.
Proof.
  intros Hwf Hb. split; [|unfold toUint8Clamped; repeat split; intros; lia].
  destruct (pixel_index_range _ _ _ Hwf Hb) as [Hlo Hhi].
  unfold getPixelColor, setPixelColor. simpl.
  set (i := (y * width imageData + x) * 4) in *.
  f_equal.
  - rewrite !js_get_set_ne by lia. by rewrite js_get_set_eq by lia.
  - rewrite !js_get_set_ne by lia.
    by rewrite js_get_set_eq by (rewrite !length_js_set; lia).
  - rewrite !js_get_set_ne by lia.
    by rewrite js_get_set_eq by (rewrite !length_js_set; lia).
  - by rewrite js_get_set_eq by (rewrite !length_js_set; lia).
Qed.

Lemma setPixelColor_clamps_witness :
  getPixelColor
    (setPixelColor threePixels 1 0 (mkColor (Some 300) (Some (-5)) None (Some 8)))
    1 0
  = mkColor (Some 255) (Some 0) (Some 0) (Some 8).
Proof.
  apply (proj1 (setPixelColor_clamps threePixels 1 0
                  (mkColor (Some 300) (Some (-5)) None (Some 8))
                  ltac:(unfold buffer_wf; simpl; lia) eq_refl)).
Defined.

(** X3.  The accessors check no bounds.  A column beyond the right edge
    aliases the next row: [(x + width, y)] is the pixel [(x, y + 1)], for
    reading and for writing.  When the index falls outside the data, the
    read returns four [undefined] channels and the write changes nothing. *)
Theorem pixel_accessors_unchecked imageData x y c :
  getPixelColor imageData (x + width imageData) y =
    getPixelColor imageData x (y + 1) ∧
  setPixelColor imageData (x + width imageData) y c =
    setPixelColor imageData x (y + 1) c ∧
  ((y * width imageData + x) * 4 + 3 < 0 ∨
   Z.of_nat (length (data imageData)) ≤ (y * width imageData + x) * 4 →
   getPixelColor imageData x y = mkColor None None None None ∧
   setPixelColor imageData x y c = imageData).
Proof.
  assert (Hidx : (y * width imageData + (x + width imageData)) * 4 =
                 ((y + 1) * width imageData + x) * 4) by lia.
  split; [|split].
  - unfold getPixelColor. by rewrite Hidx.
  - unfold setPixelColor. by rewrite Hidx.
  - intros Hout.
    assert (Hget : ∀ k, 0 ≤ k ≤ 3 →
              js_get (data imageData) ((y * width imageData + x) * 4 + k) = None).
    { intros k Hk. unfold js_get.
      destruct (Z.ltb_spec ((y * width imageData + x) * 4 + k) 0); [done|].
      apply lookup_ge_None. lia. }
    assert (Hset : ∀ k v, 0 ≤ k ≤ 3 →
              js_set (data imageData) ((y * width imageData + x) * 4 + k) v
              = data imageData).
    { intros k v Hk. unfold js_set.
      destruct (Z.ltb_spec ((y * width imageData + x) * 4 + k) 0); [done|].
      apply list_insert_ge. lia. }
    pose proof (Hget 0 ltac:(lia)) as Hget0. pose proof (Hset 0) as Hset0.
    rewrite Z.add_0_r in Hget0, Hset0.
    split.
    + unfold getPixelColor. cbv zeta. by rewrite Hget0, !Hget by lia.
    + unfold setPixelColor. cbv zeta.
      rewrite Hset0 by lia. rewrite !Hset by lia. by destruct imageData.
Qed.

Lemma pixel_accessors_unchecked_witness :
  getPixelColor threePixels (-1) 0 = mkColor None None None None ∧
  setPixelColor threePixels (-1) 0 (mkColor (Some 7) (Some 7) (Some 7) (Some 7))
    = threePixels.
Proof.
  apply (proj2 (proj2 (pixel_accessors_unchecked threePixels (-1) 0
                         (mkColor (Some 7) (Some 7) (Some 7) (Some 7))))).
  left. vm_compute. reflexivity.
Defined.

(** X4.  [colorsEqual] is exact equality of the four channels, with no
    tolerance, and it is symmetric. *)
Theorem colorsEqual_decides_equality c1 c2 :
  (colorsEqual c1 c2 = true ↔ c1 = c2) ∧
  colorsEqual c1 c2 = colorsEqual c2 c1.
Proof.
  split; [apply colorsEqual_eq|].
  destruct (colorsEqual c1 c2) eqn:H12, (colorsEqual c2 c1) eqn:H21; try done.
  - apply colorsEqual_eq in H12 as ->. by rewrite colorsEqual_refl in H21.
  - apply colorsEqual_eq in H21 as ->. by rewrite colorsEqual_refl in H12.
Qed.

(** ** Colour strings *)

(** X5.  For an opacity between 0 and 1, [hexToRgba] returns four byte
    channels whatever the string. *)
Theorem hexToRgba_bytes (opacity : Q) hex :
  (0 <= opacity)%Q → (opacity <= 1)%Q → byteColor (hexToRgba opacity hex).
Proof. apply hexToRgba_byteColor. Qed.

Lemma hexToRgba_bytes_witness : byteColor (hexToRgba (1 # 2) "#ff8000").
Proof. apply (hexToRgba_bytes (1 # 2) "#ff8000"); vm_compute; discriminate. Defined.

(** X6.  A string that, after its optional [#], is not six characters long
    (the shorthand [#fff], a colour name) or holds a character that is not a
    hexadecimal digit, converts to opaque black: the opacity is ignored. *)
Theorem hexToRgba_fallback (opacity : Q) hex :
  String.length (afterHash hex) ≠ 6%nat ∨
  (∃ c, In c (list_ascii_of_string (afterHash hex)) ∧ hexDigit c = None) →
  hexToRgba opacity hex = mkColor (Some 0) (Some 0) (Some 0) (Some 255).
Proof.
  unfold hexToRgba. fold (afterHash hex).
  generalize (afterHash hex). intros digits Hbad.
  destruct (list_ascii_of_string digits)
    as [|c1 [|c2 [|c3 [|c4 [|c5 [|c6 [|c7 l]]]]]]] eqn:Hl; try done.
  destruct Hbad as [Hlen|(c & Hin & Hc)].
  - exfalso. apply Hlen.
    rewrite <- (string_of_list_ascii_of_string digits), Hl. reflexivity.
  - unfold parseHexPair. simpl in Hin.
    destruct Hin as [<-|[<-|[<-|[<-|[<-|[<-|[]]]]]]]; rewrite Hc;
      repeat (destruct (hexDigit _)); done.
Qed.

Lemma hexToRgba_fallback_witness :
  hexToRgba (1 # 2) "#fff" = mkColor (Some 0) (Some 0) (Some 0) (Some 255).
Proof. apply (hexToRgba_fallback (1 # 2) "#fff"). left. vm_compute. discriminate. Defined.

Lemma hexDigit_hexChar n : 0 ≤ n ≤ 15 → hexDigit (hexChar n) = Some n.
Proof.
  intros Hn.
  assert (n = 0 ∨ n = 1 ∨ n = 2 ∨ n = 3 ∨ n = 4 ∨ n = 5 ∨ n = 6 ∨ n = 7 ∨
          n = 8 ∨ n = 9 ∨ n = 10 ∨ n = 11 ∨ n = 12 ∨ n = 13 ∨ n = 14 ∨ n = 15)
    as H by lia.
  repeat (destruct H as [->|H]; [reflexivity|]). by subst.
Qed.

Lemma parseHexPair_toHex2 x :
  0 ≤ x ≤ 255 → parseHexPair (hexChar (x / 16)) (hexChar (x mod 16)) = Some x.
Proof.
  intros Hx. unfold parseHexPair.
  pose proof (Z.div_mod x 16 ltac:(lia)) as Hdm.
  pose proof (Z.mod_pos_bound x 16 ltac:(lia)) as Hm.
  assert (0 ≤ x / 16 ≤ 15).
  { split; [apply Z.div_pos; lia|]. apply Z.lt_succ_r.
    apply Z.div_lt_upper_bound; lia. }
  rewrite !hexDigit_hexChar by lia. f_equal. lia.
Qed.

Lemma rgbaToHex_hexToRgba_bytes (opacity : Q) r g b :
  0 ≤ r ≤ 255 → 0 ≤ g ≤ 255 → 0 ≤ b ≤ 255 →
  hexToRgba opacity (rgbaToHex r g b) =
  mkColor (Some r) (Some g) (Some b) (Some (Math_round (opacity * 255))).
Proof.
  intros Hr Hg Hb. unfold hexToRgba, rgbaToHex, toHex2. simpl.
  by rewrite !parseHexPair_toHex2.
Qed.

(** X7.  [hexToRgba] undoes [rgbaToHex]: for byte channels the string
    [rgbaToHex r g b] converts back to [r], [g], [b], with the alpha derived
    from the opacity. *)
Theorem rgbaToHex_hexToRgba (opacity : Q) r g b :
  0 ≤ r ≤ 255 → 0 ≤ g ≤ 255 → 0 ≤ b ≤ 255 →
  hexToRgba opacity (rgbaToHex r g b) =
  mkColor (Some r) (Some g) (Some b) (Some (Math_round (opacity * 255))).
Proof. apply rgbaToHex_hexToRgba_bytes. Qed.

Lemma rgbaToHex_hexToRgba_witness :
  hexToRgba 1 (rgbaToHex 255 128 0) =
  mkColor (Some 255) (Some 128) (Some 0) (Some (Math_round (1 * 255))).
Proof. apply (rgbaToHex_hexToRgba 1 255 128 0); lia. Defined.

(** ** History: further properties *)

Lemma undo_redo_step st :
  history_wf st →
  (∃ st', undo st = Done st' ∧ history st' = history st ∧ history_wf st' ∧
          historyIndex st' = Z.max (Z.min 0 (historyIndex st)) (historyIndex st - 1)) ∧
  (∃ st', redo st = Done st' ∧ history st' = history st ∧ history_wf st' ∧
          historyIndex st' =
            Z.min (Z.of_nat (length (history st)) - 1) (historyIndex st + 1)).
Proof.
  intros Hwf. pose proof Hwf as [_ Hcur _ _ _]. split.
  - assert (∃ st', undo st = Done st') as [st' Hundo].
    { unfold undo. destruct (Z.gtb_spec (historyIndex st) 0); [|eauto].
      unfold putHistoryEntry. simpl.
      destruct (js_get_in_range (history st) (historyIndex st - 1)) as [e ->];
        [lia|eauto]. }
    exists st'. split; [done|].
    destruct (undo_Done st st' Hundo) as (Hh & _ & _ & Hcase).
    split; [done|]. split; [by eapply undo_wf|].
    destruct Hcase as [[? ->]|[? ->]]; lia.
  - assert (∃ st', redo st = Done st') as [st' Hredo].
    { unfold redo.
      destruct (Z.ltb_spec (historyIndex st) (Z.of_nat (length (history st)) - 1));
        [|eauto].
      unfold putHistoryEntry. simpl.
      destruct (js_get_in_range (history st) (historyIndex st + 1)) as [e ->];
        [lia|eauto]. }
    exists st'. split; [done|].
    destruct (redo_Done st st' Hredo) as (Hh & _ & _ & Hcase).
    split; [done|]. split; [by eapply redo_wf|].
    destruct Hcase as [[? ->]|[? ->]]; lia.
Qed.

(** X8.  On a well-formed history [undo] and [redo] never throw and never
    change the history sequence; [undo] moves the cursor one entry back but
    not below the first entry, [redo] one entry forward but not beyond the
    last, and the history stays well formed. *)
Theorem undo_redo_never_throw st :
  history_wf st →
  (∃ st', undo st = Done st' ∧ history st' = history st ∧ history_wf st' ∧
          historyIndex st' = Z.max (Z.min 0 (historyIndex st)) (historyIndex st - 1)) ∧
  (∃ st', redo st = Done st' ∧ history st' = history st ∧ history_wf st' ∧
          historyIndex st' =
            Z.min (Z.of_nat (length (history st)) - 1) (historyIndex st + 1)).
Proof. apply undo_redo_step. Qed.

Lemma undo_redo_never_throw_witness :
  (∃ st', undo (pushed 3) = Done st' ∧ history st' = history (pushed 3) ∧
          history_wf st' ∧
          historyIndex st' =
            Z.max (Z.min 0 (historyIndex (pushed 3))) (historyIndex (pushed 3) - 1)) ∧
  (∃ st', redo (pushed 3) = Done st' ∧ history st' = history (pushed 3) ∧
          history_wf st' ∧
          historyIndex st' =
            Z.min (Z.of_nat (length (history (pushed 3))) - 1)
                  (historyIndex (pushed 3) + 1)).
Proof. apply (undo_redo_never_throw (pushed 3)). apply pushed_wf. Defined.

(** X9.  With the cursor on an entry that is not the last, [redo] followed
    by [undo] returns, restores the cursor and the history, and repaints the
    canvas from the entry that was current before. *)
Theorem redo_undo_inverse st :
  0 ≤ historyIndex st < Z.of_nat (length (history st)) - 1 →
  ∃ snap st1 st2,
    js_get (history st) (historyIndex st) = Some snap ∧
    redo st = Done st1 ∧ undo st1 = Done st2 ∧
    st2 = set_canvas (putImageData snap (canvas st1)) st.
Proof.
  intros Hidx.
  destruct (js_get_in_range (history st) (historyIndex st)) as [snap Hsnap]; [lia|].
  destruct (js_get_in_range (history st) (historyIndex st + 1)) as [next Hnext]; [lia|].
  exists snap.
  exists (set_canvas (putImageData next (canvas st))
            (set_historyIndex (historyIndex st + 1) st)).
  eexists. split; [done|]. split; [|split].
  - unfold redo.
    destruct (Z.ltb_spec (historyIndex st) (Z.of_nat (length (history st)) - 1));
      [|lia].
    unfold putHistoryEntry. simpl. by rewrite Hnext.
  - unfold undo. simpl.
    destruct (Z.gtb_spec (historyIndex st + 1) 0); [|lia].
    unfold putHistoryEntry. simpl.
    replace (historyIndex st + 1 - 1) with (historyIndex st) by lia.
    rewrite Hsnap. reflexivity.
  - reflexivity.
Qed.

Lemma redo_undo_inverse_witness :
  let st := stateOf (undo (pushed 3)) in
  ∃ snap st1 st2,
    js_get (history st) (historyIndex st) = Some snap ∧
    redo st = Done st1 ∧ undo st1 = Done st2 ∧
    st2 = set_canvas (putImageData snap (canvas st1)) st.
Proof.
  intros st. apply (redo_undo_inverse st). vm_compute. split; [discriminate|reflexivity].
Defined.

Lemma undos_cursor n : ∀ st,
  history_wf st →
  ∃ st', undos n st = Done st' ∧ history st' = history st ∧ history_wf st' ∧
         historyIndex st' =
           Z.max (Z.min 0 (historyIndex st)) (historyIndex st - Z.of_nat n).
Proof.
  induction n as [|n IH]; intros st Hwf.
  - exists st. simpl. split; [done|]. split; [done|]. split; [done|]. lia.
  - destruct (undo_redo_step st Hwf) as [(s1 & Hu & Hh1 & Hwf1 & Hi1) _].
    destruct (IH s1 Hwf1) as (st' & Hus & Hh' & Hwf' & Hi').
    exists st'. simpl. rewrite Hu. simpl. split; [done|].
    split; [congruence|]. split; [done|]. lia.
Qed.

Lemma redos_cursor n : ∀ st,
  history_wf st →
  ∃ st', redos n st = Done st' ∧ history st' = history st ∧ history_wf st' ∧
         historyIndex st' =
           Z.min (Z.of_nat (length (history st)) - 1)
                 (historyIndex st + Z.of_nat n).
Proof.
  induction n as [|n IH]; intros st Hwf.
  - exists st. simpl. pose proof Hwf as [_ Hcur _ _ _].
    split; [done|]. split; [done|]. split; [done|]. lia.
  - destruct (undo_redo_step st Hwf) as [_ (s1 & Hu & Hh1 & Hwf1 & Hi1)].
    destruct (IH s1 Hwf1) as (st' & Hus & Hh' & Hwf' & Hi').
    exists st'. simpl. rewrite Hu. simpl. split; [done|].
    split; [congruence|]. split; [done|]. rewrite Hh1 in Hi'. lia.
Qed.

(** X10.  On a well-formed history [n] calls of [undo] move the cursor back
    by [n], stopping at the first entry (or staying at -1 on the empty
    history); [n] calls of [redo] after them move it forward by [n],
    stopping at the last entry.  The sequence is never changed. *)
Theorem undos_redos_cursor n st :
  history_wf st →
  ∃ s1 s2,
    undos n st = Done s1 ∧ redos n s1 = Done s2 ∧
    history s1 = history st ∧ history s2 = history st ∧
    historyIndex s1 = Z.max (Z.min 0 (historyIndex st)) (historyIndex st - Z.of_nat n) ∧
    historyIndex s2 =
      Z.min (Z.of_nat (length (history st)) - 1)
            (Z.max (Z.min 0 (historyIndex st)) (historyIndex st - Z.of_nat n)
             + Z.of_nat n).
Proof.
  intros Hwf.
  destruct (undos_cursor n st Hwf) as (s1 & Hu & Hh1 & Hwf1 & Hi1).
  destruct (redos_cursor n s1 Hwf1) as (s2 & Hr & Hh2 & _ & Hi2).
  exists s1, s2. repeat split; try done; congruence.
Qed.

Lemma undos_redos_cursor_witness :
  ∃ s1 s2,
    undos 5 (pushed 3) = Done s1 ∧ redos 5 s1 = Done s2 ∧
    history s1 = history (pushed 3) ∧ history s2 = history (pushed 3) ∧
    historyIndex s1 =
      Z.max (Z.min 0 (historyIndex (pushed 3)))
            (historyIndex (pushed 3) - Z.of_nat 5) ∧
    historyIndex s2 =
      Z.min (Z.of_nat (length (history (pushed 3))) - 1)
            (Z.max (Z.min 0 (historyIndex (pushed 3)))
                   (historyIndex (pushed 3) - Z.of_nat 5) + Z.of_nat 5).
Proof. apply (undos_redos_cursor 5 (pushed 3)). apply pushed_wf. Defined.

(** ** History: saving and restoring canvases *)

Lemma canvas_eta cv :
  {| cv_width := cv_width cv; cv_height := cv_height cv;
     cv_bitmap := cv_bitmap cv |} = cv.
Proof. by destruct cv. Qed.

(** A completed [saveState] on a well-formed history and canvas appends the
    snapshot of the canvas to the entries up to the cursor, less the evicted
    one. *)
Lemma saveState_appends st st' :
  history_wf st → canvas_wf (canvas st) → saveState st = Done st' →
  let k := if Z.of_nat (length (history st)) >? maxHistorySteps st
           then 1%nat else 0%nat in
  history st' =
    drop k (take (Z.to_nat (historyIndex st + 1)) (history st)) ++ [snapshotOf st] ∧
  historyIndex st' = Z.of_nat (length (history st')) - 1 ∧
  0 < cv_width (canvas st) ∧ 0 < cv_height (canvas st).
Proof.
  intros Hwf Hcv Hsave k.
  destruct (saveState_Done st st' Hsave) as (snap & Hcap & Hh & Hi & _).
  assert (0 < cv_width (canvas st) ∧ 0 < cv_height (canvas st)) as [Hw Hh0].
  { revert Hcap. unfold captureCanvas, getImageData.
    destruct Hcv as (? & ? & _).
    destruct (Z.eqb_spec (cv_width (canvas st)) 0);
      destruct (Z.eqb_spec (cv_height (canvas st)) 0); simpl; try done. lia. }
  rewrite captureCanvas_full in Hcap by done. injection Hcap as <-.
  split; [|done]. rewrite Hh. f_equal.
  destruct Hwf as [Hcapacity [Hlo Hhi] Hentry _ _].
  apply slice0_cursor. subst k.
  destruct (Z.gtb_spec (Z.of_nat (length (history st))) (maxHistorySteps st))
    as [Hgt|Hle]; [|simpl; lia].
  assert (history st ≠ []) as Hne by (intros E; rewrite E in Hgt; simpl in Hgt; lia).
  specialize (Hentry Hne). simpl. lia.
Qed.

Lemma putImageData_snapshotOf st cv :
  canvas_wf (canvas st) → canvas_wf cv →
  cv_width cv = cv_width (canvas st) → cv_height cv = cv_height (canvas st) →
  putImageData (snapshotOf st) cv = canvas st.
Proof.
  intros Hst Hcv Hw Hh. rewrite putImageData_full by done.
  simpl. rewrite Hw, Hh. apply canvas_eta.
Qed.

Lemma save_edit_save st s1 s1' s2 :
  history_wf st → 1 ≤ maxHistorySteps st →
  canvas_wf (canvas st) → canvas_wf (canvas s1') →
  cv_width (canvas s1') = cv_width (canvas st) →
  cv_height (canvas s1') = cv_height (canvas st) →
  saveState st = Done s1 →
  history s1' = history s1 → historyIndex s1' = historyIndex s1 →
  maxHistorySteps s1' = maxHistorySteps s1 → (nextOid s1 ≤ nextOid s1')%nat →
  saveState s1' = Done s2 →
  ∃ older, history s2 = older ++ [snapshotOf st; snapshotOf s1'] ∧
           historyIndex s2 = Z.of_nat (length older) + 1.
Proof.
  intros Hwf Hmax Hcv Hcv1 Hw Hh Hsave1 Hh1 Hi1 Hm1 Hn1 Hsave2.
  destruct (saveState_appends st s1 Hwf Hcv Hsave1) as (Hhist1 & Hidx1 & _).
  destruct (saveState_Done st s1 Hsave1) as (_ & _ & _ & _ & _ & _ & Hmax1 & _).
  assert (Hwf1' : history_wf s1').
  { destruct (saveState_wf st s1 Hwf Hsave1) as [? ? ? ? Halloc].
    split; rewrite ?Hh1, ?Hi1, ?Hm1; try done.
    eapply Forall_impl; [exact Halloc|]. simpl. intros; lia. }
  destruct (saveState_appends s1' s2 Hwf1' Hcv1 Hsave2) as (Hhist2 & Hidx2 & _).
  rewrite Hh1, Hi1, Hm1, Hidx1 in Hhist2.
  replace (Z.to_nat (Z.of_nat (length (history s1)) - 1 + 1))
    with (length (history s1)) in Hhist2 by lia.
  rewrite firstn_all in Hhist2.
  set (pre := drop (if Z.of_nat (length (history st)) >? maxHistorySteps st
                    then 1%nat else 0%nat)
                (take (Z.to_nat (historyIndex st + 1)) (history st))) in *.
  destruct (Z.gtb_spec (Z.of_nat (length (history s1))) (maxHistorySteps s1))
    as [Hgt|Hle].
  - rewrite Hhist1 in Hhist2, Hgt. rewrite length_app in Hgt. simpl in Hgt.
    destruct pre as [|e pre']; [simpl in Hgt; lia|].
    exists pre'. simpl in Hhist2. rewrite drop_0, <- app_assoc in Hhist2.
    simpl in Hhist2.
    split; [done|]. rewrite Hidx2, Hhist2, length_app. simpl. lia.
  - exists pre. rewrite Hhist1, drop_0, <- app_assoc in Hhist2.
    simpl in Hhist2.
    split; [done|]. rewrite Hidx2, Hhist2, length_app. simpl. lia.
Qed.

(** X11.  Undo restores what was saved.  Save a well-formed canvas, edit it
    in any way that keeps its size and the history ([s1']), save again: then
    [undo] shows exactly the first canvas again and [redo] exactly the
    edited one.  It needs [maxHistorySteps >= 1]. *)
Theorem undo_restores_saved_canvas st s1 s1' s2 :
  history_wf st → 1 ≤ maxHistorySteps st →
  canvas_wf (canvas st) → canvas_wf (canvas s1') →
  cv_width (canvas s1') = cv_width (canvas st) →
  cv_height (canvas s1') = cv_height (canvas st) →
  saveState st = Done s1 →
  history s1' = history s1 → historyIndex s1' = historyIndex s1 →
  maxHistorySteps s1' = maxHistorySteps s1 → (nextOid s1 ≤ nextOid s1')%nat →
  saveState s1' = Done s2 →
  ∃ s3 s4,
    undo s2 = Done s3 ∧ canvas s3 = canvas st ∧
    redo s3 = Done s4 ∧ canvas s4 = canvas s1' ∧
    history s4 = history s2 ∧ historyIndex s4 = historyIndex s2.
Proof.
  intros Hwf Hmax Hcv Hcv1 Hw Hh Hsave1 Hh1 Hi1 Hm1 Hn1 Hsave2.
  destruct (save_edit_save st s1 s1' s2 Hwf Hmax Hcv Hcv1 Hw Hh Hsave1 Hh1 Hi1
              Hm1 Hn1 Hsave2) as (older & Hhist & Hidx).
  destruct (saveState_Done s1' s2 Hsave2) as (_ & _ & _ & _ & Hc2 & _).
  assert (Hprev : js_get (history s2) (historyIndex s2 - 1) = Some (snapshotOf st)).
  { unfold js_get. destruct (Z.ltb_spec (historyIndex s2 - 1) 0); [lia|].
    rewrite Hhist, Hidx.
    replace (Z.to_nat (Z.of_nat (length older) + 1 - 1)) with (length older + 0)%nat
      by lia.
    by rewrite lookup_app_r, Nat.add_comm, Nat.add_sub by lia. }
  assert (Hcur : js_get (history s2) (historyIndex s2) = Some (snapshotOf s1')).
  { unfold js_get. destruct (Z.ltb_spec (historyIndex s2) 0); [lia|].
    rewrite Hhist, Hidx.
    replace (Z.to_nat (Z.of_nat (length older) + 1)) with (length older + 1)%nat
      by lia.
    by rewrite lookup_app_r, Nat.add_comm, Nat.add_sub by lia. }
  eexists. eexists. split; [|split; [|split]].
  - unfold undo. destruct (Z.gtb_spec (historyIndex s2) 0); [|lia].
    unfold putHistoryEntry. simpl. rewrite Hprev. reflexivity.
  - simpl. rewrite Hc2. by apply putImageData_snapshotOf.
  - unfold redo. simpl.
    destruct (Z.ltb_spec (historyIndex s2 - 1) (Z.of_nat (length (history s2)) - 1));
      [|rewrite Hhist, length_app in *; simpl in *; lia].
    unfold putHistoryEntry. simpl.
    replace (historyIndex s2 - 1 + 1) with (historyIndex s2) by lia.
    rewrite Hcur. reflexivity.
  - simpl. split; [|done].
    rewrite Hc2. rewrite (putImageData_snapshotOf st) by done.
    apply putImageData_snapshotOf; done.
Qed.

Lemma undo_restores_saved_canvas_witness :
  let st := constructed whitePixel in
  let s1 := stateOf (saveState st) in
  let s1' := set_canvas (blacken (canvas s1)) s1 in
  let s2 := stateOf (saveState s1') in
  ∃ s3 s4,
    undo s2 = Done s3 ∧ canvas s3 = canvas st ∧
    redo s3 = Done s4 ∧ canvas s4 = canvas s1' ∧
    history s4 = history s2 ∧ historyIndex s4 = historyIndex s2.
Proof.
  intros st s1 s1' s2.
  apply (undo_restores_saved_canvas st s1 s1' s2).
  - apply constructed_wf.
  - vm_compute. discriminate.
  - unfold canvas_wf. simpl. lia.
  - unfold canvas_wf. simpl. lia.
  - reflexivity.
  - reflexivity.
  - vm_compute. reflexivity.
  - reflexivity.
  - reflexivity.
  - reflexivity.
  - vm_compute. lia.
  - vm_compute. reflexivity.
Defined.

Lemma saveState_length_le st st' :
  0 ≤ maxHistorySteps st →
  saveState st = Done st' →
  Z.of_nat (length (history st')) ≤
  Z.max (Z.of_nat (length (history st))) (maxHistorySteps st + 1).
Proof.
  intros Hmax Hsave.
  destruct (saveState_Done st st' Hsave) as (snap & _ & Hh & _).
  rewrite Hh, length_app. simpl length. unfold slice0.
  rewrite length_take, length_drop.
  destruct (Z.gtb_spec (Z.of_nat (length (history st))) (maxHistorySteps st)); lia.
Qed.

Lemma history_run_bound st :
  history_run st →
  maxHistorySteps st = 50 ∧ Z.of_nat (length (history st)) ≤ 51.
Proof.
  induction 1 as [cv|st st' _ [IHm IHl] Hop|st st' _ [IHm IHl] Hop
                  |st st' _ [IHm IHl] Hop|st st' _ [IHm IHl] Hh Hi Hm Hn].
  - simpl. lia.
  - pose proof (saveState_length_le st st' ltac:(lia) Hop).
    destruct (saveState_Done st st' Hop) as (_ & _ & _ & _ & _ & _ & Hmax & _).
    lia.
  - destruct (undo_Done st st' Hop) as (-> & _ & -> & _). done.
  - destruct (redo_Done st st' Hop) as (-> & _ & -> & _). done.
  - rewrite Hh, Hm. done.
Qed.

Lemma history_run_saveStates n : ∀ st,
  history_run st → 0 < cv_width (canvas st) → 0 < cv_height (canvas st) →
  history_run (stateOf (saveStates n st)).
Proof.
  induction n as [|n IH]; intros st Hrun Hw Hh; [done|]. simpl.
  destruct (saveState st) as [st'|e st'] eqn:Hsave.
  - simpl. destruct (saveState_Done st st' Hsave) as (_ & _ & _ & _ & Hcv & _).
    apply IH; [by eapply run_saveState|by rewrite Hcv..].
  - exfalso. revert Hsave. unfold saveState, captureCanvas, getImageData.
    destruct (_ >? _); simpl;
      destruct (Z.eqb_spec (cv_width (canvas st)) 0);
      destruct (Z.eqb_spec (cv_height (canvas st)) 0); simpl; (done || lia).
Qed.

Lemma history_run_pushed n : history_run (pushed n).
Proof.
  apply history_run_saveStates; [apply run_constructed|done..].
Qed.

Lemma history_run_undos n : ∀ st,
  history_run st → history_run (stateOf (undos n st)).
Proof.
  induction n as [|n IH]; intros st Hrun; [done|]. simpl.
  destruct (undo_redo_step st (history_run_wf st Hrun)) as ((st' & Hundo & _) & _).
  rewrite Hundo. simpl. apply IH. by eapply run_undo.
Qed.

(** X12.  In every state that a run of the application reaches,
    [maxHistorySteps] is 50 and the history holds at most 51 snapshots. *)
Theorem history_never_exceeds_51 st :
  history_run st →
  maxHistorySteps st = 50 ∧ Z.of_nat (length (history st)) ≤ 51 ∧
  history_wf st.
Proof.
  intros Hrun. destruct (history_run_bound st Hrun) as [Hm Hl].
  split; [done|]. split; [done|]. by apply history_run_wf.
Qed.

Lemma history_never_exceeds_51_witness :
  let st := stateOf (redo (stateOf (undos 3 (pushed 55)))) in
  maxHistorySteps st = 50 ∧ Z.of_nat (length (history st)) ≤ 51 ∧
  history_wf st.
Proof.
  intros st. apply (history_never_exceeds_51 st).
  apply (run_redo (stateOf (undos 3 (pushed 55)))); [|vm_compute; reflexivity].
  apply history_run_undos, history_run_pushed.
Defined.

(** X13.  When the history is over capacity and the cursor is on the first
    entry, a completed [saveState] evicts that entry and prunes all the
    others: the history is left with the new snapshot alone, so [undo] can
    no longer return to the canvas that was shown before. *)
Theorem saveState_overflow_at_first_entry st st' :
  Z.of_nat (length (history st)) > maxHistorySteps st →
  historyIndex st = 0 →
  saveState st = Done st' →
  ∃ snap, history st' = [snap] ∧ oid snap = nextOid st ∧ historyIndex st' = 0 ∧
          undo st' = Done st'.
Proof.
  intros Hover Hidx Hsave.
  destruct (saveState_Done st st' Hsave) as (snap & Hcap & Hh & Hi & _).
  apply captureCanvas_oid in Hcap.
  destruct (Z.gtb_spec (Z.of_nat (length (history st))) (maxHistorySteps st));
    [|lia].
  rewrite Hidx in Hh. unfold slice0 in Hh. simpl in Hh.
  replace (Z.to_nat ((0 - Z.of_nat 1 + 1) `min`
             Z.of_nat (length (drop 1 (history st))))) with 0%nat in Hh by lia.
  rewrite take_0 in Hh. simpl in Hh.
  exists snap. rewrite Hh in Hi. simpl in Hi.
  split; [done|]. split; [done|]. split; [done|]. by apply undo_at_start.
Qed.

Lemma saveState_overflow_at_first_entry_witness :
  let st := stateOf (undos 50 (pushed 51)) in
  ∃ snap, history (stateOf (saveState st)) = [snap] ∧ oid snap = nextOid st ∧
          historyIndex (stateOf (saveState st)) = 0 ∧
          undo (stateOf (saveState st)) = Done (stateOf (saveState st)).
Proof.
  intros st.
  apply (saveState_overflow_at_first_entry st (stateOf (saveState st)));
    vm_compute; reflexivity.
Defined.

(** X14.  A completed [clearCanvas] on a well-formed canvas leaves every
    channel of every pixel at 255, keeps the size of the canvas, and appends
    a snapshot of that white canvas as the last entry, with the cursor on
    it. *)
Theorem clearCanvas_whitens_and_saves st st' :
  canvas_wf (canvas st) → history_wf st → clearCanvas st = Done st' →
  cv_bitmap (canvas st') = replicate (length (cv_bitmap (canvas st))) 255 ∧
  cv_width (canvas st') = cv_width (canvas st) ∧
  cv_height (canvas st') = cv_height (canvas st) ∧
  last (history st') = Some (snapshotOf (clearCanvasToWhite st)) ∧
  data (snapshotOf (clearCanvasToWhite st)) = cv_bitmap (canvas st') ∧
  historyIndex st' = Z.of_nat (length (history st')) - 1.
Proof.
  intros Hcv Hwf Hclear. unfold clearCanvas in Hclear.
  assert (Hwhite : (λ _ : Z, 255) <$> cv_bitmap (canvas st)
                   = replicate (length (cv_bitmap (canvas st))) 255).
  { induction (cv_bitmap (canvas st)) as [|b l IH]; [done|].
    simpl. by rewrite <- IH. }
  assert (Hcv' : canvas_wf (canvas (clearCanvasToWhite st))).
  { destruct Hcv as (Hw & Hh & Hlen). unfold canvas_wf. simpl.
    by rewrite length_fmap. }
  assert (Hwf' : history_wf (clearCanvasToWhite st)) by (by destruct Hwf).
  destruct (saveState_appends _ _ Hwf' Hcv' Hclear) as (Hh & Hi & _).
  destruct (saveState_Done _ _ Hclear) as (_ & _ & _ & _ & Hc & _).
  rewrite Hc. simpl. rewrite Hwhite.
  repeat split; try done. rewrite Hh. apply last_snoc.
Qed.

Lemma clearCanvas_whitens_and_saves_witness :
  let st := set_canvas (blacken whitePixel) (pushed 1) in
  let st' := stateOf (clearCanvas st) in
  cv_bitmap (canvas st') = replicate (length (cv_bitmap (canvas st))) 255 ∧
  cv_width (canvas st') = cv_width (canvas st) ∧
  cv_height (canvas st') = cv_height (canvas st) ∧
  last (history st') = Some (snapshotOf (clearCanvasToWhite st)) ∧
  data (snapshotOf (clearCanvasToWhite st)) = cv_bitmap (canvas st') ∧
  historyIndex st' = Z.of_nat (length (history st')) - 1.
Proof.
  intros st st'. apply (clearCanvas_whitens_and_saves st st').
  - unfold canvas_wf. simpl. lia.
  - by destruct (pushed_wf 1).
  - vm_compute. reflexivity.
Defined.

(** ** Gestures: further properties *)

Lemma handleColorPicker_Done pos st :
  ∃ s, handleColorPicker pos st = Done s ∧
       canvas s = canvas st ∧ same_history st (set_nextOid (nextOid st) s) ∧
       nextOid s = S (nextOid st) ∧ isDrawing s = isDrawing st.
Proof.
  unfold handleColorPicker, getImageData. simpl.
  eexists. split; [reflexivity|]. done.
Qed.

(** Rules out, one by one, the names a tool outside [knownTools] is
    compared with. *)
Ltac unknown_tool Hnot :=
  unfold knownTools in Hnot;
  repeat match goal with
  | |- context [String.eqb ?t ?s] =>
      destruct (String.eqb_spec t s) as [?E|_];
      [exfalso; apply Hnot; rewrite ?E; set_solver|]
  end.

Section MoreGestures.
Context `{R : Raster}.

Lemma handleMouseMoves_idle tool moves : ∀ st,
  currentTool st = tool → isDrawing st = true →
  tool = "eyedropper"%string ∨ tool ∉ knownTools →
  handleMouseMoves moves st = Done (tracked moves st).
Proof.
  intros st Htool Hdraw Hidle. revert st Htool Hdraw.
  induction moves as [|pos moves IH]; intros st Htool Hdraw; [done|].
  rewrite handleMouseMoves_cons. unfold handleMouseMove. rewrite Hdraw.
  assert (executeToolAction pos phase_move None
            (set_end (pos_x pos) (pos_y pos) st)
          = Done (set_end (pos_x pos) (pos_y pos) st)) as ->.
  { unfold executeToolAction, isTool. simpl currentTool. rewrite Htool.
    destruct Hidle as [->|Hnot]; [done|].
    unknown_tool Hnot. done. }
  cbn [andThen]. by apply IH.
Qed.

Lemma gesture_eyedropper_eq down answer moves up st :
  currentTool st = "eyedropper"%string →
  gesture down answer moves up st =
  handleColorPicker down (pressed down st) >>>
    (λ s, Done (released (tracked moves s))).
Proof.
  intros Htool. unfold gesture, handleMouseDown. fold (pressed down st).
  unfold executeToolAction at 1. unfold isTool. simpl currentTool.
  rewrite Htool. simpl String.eqb. cbn [orb].
  destruct (handleColorPicker_Done down (pressed down st))
    as (s & Hpick & _ & (_ & _ & _ & _ & Hts) & _ & Hds).
  rewrite Hpick. cbn [andThen]. simpl in Hts, Hds.
  rewrite (handleMouseMoves_idle "eyedropper") by (rewrite ?Hts; auto).
  cbn [andThen].
  destruct (tracked_fields moves s) as ((_&_&_&_&Htt)&_&Hdt).
  unfold handleMouseUp. rewrite Hdt, Hds. cbn [negb].
  unfold executeToolAction, isTool. simpl currentTool.
  rewrite Htt, Hts, Htool. simpl. by rewrite Htt, Hts, Htool.
Qed.

(** X15.  A whole gesture with the eyedropper returns and pushes no
    snapshot: canvas, history and cursor are as before; the stroke colour is
    the one [handleColorPicker] sampled at the press, and the moves and the
    release only end the gesture. *)
Theorem gesture_eyedropper_leaves_drawing down answer moves up st :
  currentTool st = "eyedropper"%string →
  ∃ picked st',
    handleColorPicker down (pressed down st) = Done picked ∧
    gesture down answer moves up st = Done st' ∧
    canvas st' = canvas st ∧ history st' = history st ∧
    historyIndex st' = historyIndex st ∧
    currentColor st' = currentColor picked ∧ isDrawing st' = false.
Proof.
  intros Htool. rewrite gesture_eyedropper_eq by done.
  destruct (handleColorPicker_Done down (pressed down st))
    as (s & Hpick & Hcv & (Hh & Hi & _) & _).
  exists s. eexists. rewrite Hpick. cbn [andThen].
  split; [done|]. split; [done|].
  destruct (tracked_fields moves s) as ((Hth & Hti & _)&Htc&_).
  assert (∀ ms s0, currentColor (tracked ms s0) = currentColor s0) as Hcol.
  { induction ms as [|p ms IH]; intros s0; [done|]. simpl. by rewrite IH. }
  simpl in *. rewrite Htc, Hcv, Hth, Hti, Hh, Hi, Hcol. done.
Qed.

(** X16.  A whole gesture with a drawing tool (pencil, brush, eraser,
    line, rectangle, circle), on a history whose cursor is on an entry or
    that is empty, is one call of [saveState] on a state with the history,
    cursor and allocations of the start: exactly one push, at the release. *)
Theorem gesture_drawing_tool_pushes_once down answer moves up st :
  drawingTool (currentTool st) → cursor_on_entry st →
  ∃ s, history s = history st ∧ historyIndex s = historyIndex st ∧
       maxHistorySteps s = maxHistorySteps st ∧ nextOid s = nextOid st ∧
       gesture down answer moves up st = saveState s.
Proof.
  intros Htool Hcur.
  destruct (gesture_drawing down answer moves up st Htool Hcur)
    as (s & (Hh & Hi & Hm & Hn & _) & Hg).
  exists s. done.
Qed.

(** X17.  A whole gesture with the fill tool is [handleFloodFill] at the
    press; the moves and the release change neither the canvas nor the
    history, so the only snapshot is the one the handler itself pushes. *)
Theorem gesture_fill_pushes_in_handler down answer moves up st :
  currentTool st = "fill"%string →
  gesture down answer moves up st =
    handleFloodFill down (pressed down st) >>>
      (λ s, Done (released (tracked moves s))) ∧
  ∀ s, history (released (tracked moves s)) = history s ∧
       historyIndex (released (tracked moves s)) = historyIndex s ∧
       canvas (released (tracked moves s)) = canvas s.
Proof.
  intros Htool. split; [by apply gesture_fill|].
  intros s. destruct (tracked_fields moves s) as ((?&?&_)&?&_). done.
Qed.

(** X18.  With a tool name [executeToolAction] does not know, a gesture
    draws nothing and leaves the history alone until the release, which
    still calls [saveState] on the unchanged canvas. *)
Theorem gesture_unknown_tool down answer moves up st :
  currentTool st ∉ knownTools →
  gesture down answer moves up st =
    saveState (released (tracked moves (pressed down st))) ∧
  canvas (released (tracked moves (pressed down st))) = canvas st ∧
  same_history st (released (tracked moves (pressed down st))).
Proof.
  intros Hnot.
  assert (Hexec : ∀ pos phase ans s, currentTool s = currentTool st →
            executeToolAction pos phase ans s = Done s).
  { intros pos phase ans s Hs. unfold executeToolAction, isTool. rewrite Hs.
    unknown_tool Hnot. done. }
  destruct (tracked_fields moves (pressed down st)) as ((Hh&Hi&Hm&Hn&Ht)&Hc&Hd).
  split; [|by repeat split].
  unfold gesture, handleMouseDown. fold (pressed down st).
  rewrite Hexec by done. cbn [andThen].
  rewrite (handleMouseMoves_idle (currentTool st)) by auto. cbn [andThen].
  unfold handleMouseUp. rewrite Hd. simpl isDrawing. cbn [negb].
  rewrite Hexec by (simpl; by rewrite Ht). cbn [andThen].
  unfold isTool. simpl currentTool. rewrite Ht. simpl currentTool.
  unknown_tool Hnot. done.
Qed.

Lemma executeToolAction_end pos pos' st :
  executeToolAction pos phase_end None st =
  executeToolAction pos' phase_end None st ∧
  ∀ s, executeToolAction pos phase_end None st = Done s →
       isDrawing s = isDrawing st ∧ currentTool s = currentTool st.
Proof.
  unfold executeToolAction.
  repeat (destruct (_ || _) || destruct (isTool _ st));
    (split; [reflexivity|]); by intros s [= <-].
Qed.

(** X19.  The position of the release is ignored: for every tool and every
    state a gesture has the same outcome wherever the pointer is released. *)
Theorem release_position_ignored down answer moves up up' st :
  gesture down answer moves up st = gesture down answer moves up' st.
Proof.
  unfold gesture.
  destruct (handleMouseDown down answer st >>> handleMouseMoves moves)
    as [s|e s]; [|done].
  cbn [andThen]. unfold handleMouseUp.
  by rewrite (proj1 (executeToolAction_end up up' (set_isDrawing false s))).
Qed.

(** X20.  After a completed [handleMouseUp] the application is no longer
    drawing, so a second release (the [mouseout] that follows a [mouseup])
    and any move change nothing and push nothing. *)
Theorem second_release_is_noop up up' pos st s :
  handleMouseUp up st = Done s →
  isDrawing s = false ∧ handleMouseUp up' s = Done s ∧
  handleMouseMove pos s = Done s.
Proof.
  intros Hup.
  assert (isDrawing s = false) as Hd.
  { revert Hup. unfold handleMouseUp.
    destruct (isDrawing st) eqn:Hds; [|by intros [= <-]].
    cbn [negb].
    destruct (executeToolAction up phase_end None (set_isDrawing false st))
      as [s1|e s1] eqn:Hexec; [|done].
    destruct (proj2 (executeToolAction_end up up _) s1 Hexec) as [Hd1 _].
    cbn [andThen]. destruct (negb _).
    - intros Hsave. apply saveState_Done in Hsave
        as (_ & _ & _ & _ & _ & _ & _ & _ & _ & _ & ->). done.
    - by intros [= <-]. }
  split; [done|]. unfold handleMouseUp, handleMouseMove. by rewrite Hd.
Qed.

(** X21.  A shape preview starts from the committed snapshot: when the
    entry under the cursor covers the canvas, a move with the line,
    rectangle or circle tool gives the same state whatever was on the canvas
    before it, so previews do not pile up; [redrawCanvas] puts the data of
    the entry on the canvas. *)
Theorem shape_preview_starts_from_snapshot pos st snap cv' :
  isDrawing st = true →
  currentTool st ∈ ["line"; "rectangle"; "circle"]%string →
  js_get (history st) (historyIndex st) = Some snap →
  buffer_wf snap → canvas_wf (canvas st) → canvas_wf cv' →
  width snap = cv_width (canvas st) → height snap = cv_height (canvas st) →
  cv_width cv' = cv_width (canvas st) → cv_height cv' = cv_height (canvas st) →
  handleMouseMove pos (set_canvas cv' st) = handleMouseMove pos st ∧
  redrawCanvas st =
    Done (set_canvas
            {| cv_width := cv_width (canvas st); cv_height := cv_height (canvas st);
               cv_bitmap := data snap |} st).
Proof.
  intros Hd Htool Hsnap Hbuf Hcv Hcv' Hw Hh Hw' Hh'.
  pose proof (js_get_Some _ _ _ Hsnap) as [Hrange _].
  assert (Hredraw : ∀ s, history s = history st → historyIndex s = historyIndex st →
            canvas_wf (canvas s) →
            cv_width (canvas s) = cv_width (canvas st) →
            cv_height (canvas s) = cv_height (canvas st) →
            redrawCanvas s =
            Done (set_canvas
                    {| cv_width := cv_width (canvas st);
                       cv_height := cv_height (canvas st);
                       cv_bitmap := data snap |} s)).
  { intros s Hhs His Hcs Hws Hhs'. unfold redrawCanvas, putHistoryEntry.
    rewrite Hhs, His, Hsnap.
    destruct (Z.gtb_spec (Z.of_nat (length (history st))) 0); [|lia].
    destruct (Z.geb_spec (historyIndex st) 0); [|lia]. simpl.
    rewrite putImageData_full by (done || congruence). by rewrite Hws, Hhs'. }
  split; [|by apply Hredraw].
  unfold handleMouseMove. simpl isDrawing. rewrite Hd.
  unfold executeToolAction, isTool. simpl currentTool.
  repeat (apply elem_of_cons in Htool as [Htool|Htool]);
    [..|by apply elem_of_nil in Htool]; rewrite Htool; simpl;
    rewrite 2!Hredraw by done; reflexivity.
Qed.

End MoreGestures.

Lemma gesture_eyedropper_leaves_drawing_witness :
  let st := selectTool "eyedropper" (pushed 1) in
  ∃ picked st',
    handleColorPicker origin (pressed origin st) = Done picked ∧
    @gesture inkRaster origin None [] origin st = Done st' ∧
    canvas st' = canvas st ∧ history st' = history st ∧
    historyIndex st' = historyIndex st ∧
    currentColor st' = currentColor picked ∧ isDrawing st' = false.
Proof.
  intros st.
  apply (@gesture_eyedropper_leaves_drawing inkRaster origin None [] origin st).
  reflexivity.
Defined.

Lemma gesture_drawing_tool_pushes_once_witness :
  let st := selectTool "rectangle" (pushed 1) in
  ∃ s, history s = history st ∧ historyIndex s = historyIndex st ∧
       maxHistorySteps s = maxHistorySteps st ∧ nextOid s = nextOid st ∧
       @gesture inkRaster origin None [mkPoint 1 1] origin st = saveState s.
Proof.
  intros st.
  apply (@gesture_drawing_tool_pushes_once inkRaster origin None [mkPoint 1 1]
           origin st).
  - unfold drawingTool. simpl. set_solver.
  - right. vm_compute. split; [discriminate|reflexivity].
Defined.

Lemma gesture_fill_pushes_in_handler_witness :
  let st := selectTool "fill" (pushed 1) in
  @gesture inkRaster origin None [] origin st =
    handleFloodFill origin (pressed origin st) >>>
      (λ s, Done (released (tracked [] s))) ∧
  ∀ s, history (released (tracked [] s)) = history s ∧
       historyIndex (released (tracked [] s)) = historyIndex s ∧
       canvas (released (tracked [] s)) = canvas s.
Proof.
  intros st.
  apply (@gesture_fill_pushes_in_handler inkRaster origin None [] origin st).
  reflexivity.
Defined.

Lemma gesture_unknown_tool_witness :
  let st := selectTool "spray" (pushed 1) in
  @gesture inkRaster origin None [] origin st =
    saveState (released (tracked [] (pressed origin st))) ∧
  canvas (released (tracked [] (pressed origin st))) = canvas st ∧
  same_history st (released (tracked [] (pressed origin st))).
Proof.
  intros st. apply (@gesture_unknown_tool inkRaster origin None [] origin st).
  unfold knownTools. simpl. intros Hin.
  repeat (apply elem_of_cons in Hin as [Hin|Hin]; [discriminate|]).
  by apply elem_of_nil in Hin.
Defined.

Lemma second_release_is_noop_witness :
  let st := stateOf (@handleMouseDown inkRaster origin None (pushed 1)) in
  let s := stateOf (@handleMouseUp inkRaster origin st) in
  isDrawing s = false ∧ @handleMouseUp inkRaster origin s = Done s ∧
  @handleMouseMove inkRaster origin s = Done s.
Proof.
  intros st s.
  apply (@second_release_is_noop inkRaster origin origin origin st s).
  vm_compute. reflexivity.
Defined.

Lemma shape_preview_starts_from_snapshot_witness :
  let st := set_isDrawing true (selectTool "line" (pushed 1)) in
  @handleMouseMove inkRaster origin
     (set_canvas (mkCanvas 1 1 [1; 2; 3; 4]) st)
  = @handleMouseMove inkRaster origin st.
Proof.
  intros st.
  apply (proj1 (@shape_preview_starts_from_snapshot inkRaster origin st
                  (mkImageData 0 1 1 [255; 255; 255; 255])
                  (mkCanvas 1 1 [1; 2; 3; 4])
                  eq_refl ltac:(set_solver) eq_refl
                  ltac:(unfold buffer_wf; simpl; lia)
                  ltac:(unfold canvas_wf; simpl; lia)
                  ltac:(unfold canvas_wf; simpl; lia)
                  eq_refl eq_refl eq_refl eq_refl)).
Defined.

(** ** Flood fill: further properties *)

Lemma floodFill_loop_empty fuel targetColor fillColor s :
  fs_stack s = [] → floodFill_loop fuel targetColor fillColor s = Some s.
Proof. intros Hst. destruct fuel; simpl; by rewrite Hst. Qed.

Lemma floodFill_iteration_off_target imageData x y targetColor fillColor :
  fillable imageData targetColor (x, y) = false →
  floodFill_iteration targetColor fillColor (floodFill_init imageData x y) =
  {| fs_img := imageData; fs_visited := ∅; fs_stack := [] |}.
Proof.
  intros Hoff. unfold floodFill_iteration, floodFill_init. simpl.
  unfold fillable in Hoff. simpl in Hoff.
  destruct (inBounds imageData (x, y)); [|done]. simpl in *.
  rewrite bool_decide_eq_false_2 by set_solver. by rewrite Hoff.
Qed.

(** X22.  When the seed is outside the buffer or its colour is not the
    target colour, [floodFill] returns the buffer unchanged. *)
Theorem floodFill_off_target_is_identity imageData x y targetColor fillColor :
  fillable imageData targetColor (x, y) = false →
  floodFill imageData x y targetColor fillColor = imageData.
Proof.
  intros Hoff. unfold floodFill, floodFill_budget.
  rewrite Nat.add_1_r.
  change (floodFill_loop (S ?n) targetColor fillColor (floodFill_init imageData x y))
    with (floodFill_loop n targetColor fillColor
            (floodFill_iteration targetColor fillColor (floodFill_init imageData x y))).
  rewrite floodFill_iteration_off_target by done.
  by rewrite floodFill_loop_empty.
Qed.

Lemma floodFill_off_target_is_identity_witness :
  floodFill threePixels 1 0 (mkColor (Some 1) (Some 1) (Some 1) (Some 1))
    (mkColor (Some 7) (Some 7) (Some 7) (Some 7)) = threePixels ∧
  floodFill threePixels 3 0 (mkColor (Some 1) (Some 1) (Some 1) (Some 1))
    (mkColor (Some 7) (Some 7) (Some 7) (Some 7)) = threePixels.
Proof.
  split.
  - apply (floodFill_off_target_is_identity threePixels 1 0). reflexivity.
  - apply (floodFill_off_target_is_identity threePixels 3 0). reflexivity.
Defined.

Lemma reachable_fillable imageData targetColor seed p :
  reachable imageData targetColor seed p →
  fillable imageData targetColor seed = true ∧
  fillable imageData targetColor p = true.
Proof. induction 1 as [Hs|p q _ [IHs _] _ Hq]; done. Qed.

Lemma fillable_spec imageData targetColor p :
  fillable imageData targetColor p = true ↔
  inBounds imageData p = true ∧ getPixelColor imageData p.1 p.2 = targetColor.
Proof. unfold fillable. by rewrite andb_true_iff, colorsEqual_eq. Qed.

(** On a buffer whose pixels all have the target colour, every pixel is
    reached: along the row of the seed, then along the column. *)
Lemma reachable_row imageData targetColor x0 y0 (d : nat) : ∀ x,
  (∀ p, inBounds imageData p = true → fillable imageData targetColor p = true) →
  inBounds imageData (x0, y0) = true → inBounds imageData (x, y0) = true →
  Z.abs (x - x0) = Z.of_nat d →
  reachable imageData targetColor (x0, y0) (x, y0).
Proof.
  induction d as [|d IH]; intros x Hall Hseed Hx Hd.
  - assert (x = x0) as -> by lia. apply reachable_seed. by apply Hall.
  - apply inBounds_spec in Hseed as Hs. apply inBounds_spec in Hx as Hx'.
    simpl in Hs, Hx'.
    destruct (Z.lt_ge_cases x0 x).
    + apply (reachable_step _ _ _ (x - 1, y0)).
      * apply IH; [done..| |lia]. apply inBounds_spec. simpl. lia.
      * left. simpl. f_equal. lia.
      * by apply Hall.
    + apply (reachable_step _ _ _ (x + 1, y0)).
      * apply IH; [done..| |lia]. apply inBounds_spec. simpl. lia.
      * right. left. simpl. f_equal. lia.
      * by apply Hall.
Qed.

Lemma reachable_column imageData targetColor seed x y0 (d : nat) : ∀ y,
  (∀ p, inBounds imageData p = true → fillable imageData targetColor p = true) →
  reachable imageData targetColor seed (x, y0) →
  inBounds imageData (x, y0) = true → inBounds imageData (x, y) = true →
  Z.abs (y - y0) = Z.of_nat d →
  reachable imageData targetColor seed (x, y).
Proof.
  induction d as [|d IH]; intros y Hall Hstart Hy0 Hy Hd.
  - by assert (y = y0) as -> by lia.
  - apply inBounds_spec in Hy0 as Hs. apply inBounds_spec in Hy as Hy'.
    simpl in Hs, Hy'.
    destruct (Z.lt_ge_cases y0 y).
    + apply (reachable_step _ _ _ (x, y - 1)).
      * apply IH; [done..| |lia]. apply inBounds_spec. simpl. lia.
      * right. right. left. simpl. f_equal. lia.
      * by apply Hall.
    + apply (reachable_step _ _ _ (x, y + 1)).
      * apply IH; [done..| |lia]. apply inBounds_spec. simpl. lia.
      * right. right. right. simpl. f_equal. lia.
      * by apply Hall.
Qed.

(** X23.  On a well-formed buffer whose pixels all have the target colour,
    a fill from any seed inside it gives every pixel the fill colour. *)
Theorem floodFill_uniform_buffer imageData x y targetColor fillColor :
  buffer_wf imageData → byteColor fillColor →
  inBounds imageData (x, y) = true →
  (∀ p, inBounds imageData p = true →
        getPixelColor imageData p.1 p.2 = targetColor) →
  ∀ p, inBounds imageData p = true →
       getPixelColor (floodFill imageData x y targetColor fillColor) p.1 p.2
       = fillColor.
Proof.
  intros Hwf Hfill Hseed Hall [px py] Hp.
  assert (Hall' : ∀ q, inBounds imageData q = true →
                       fillable imageData targetColor q = true).
  { intros q Hq. apply fillable_spec. split; [done|]. by apply Hall. }
  destruct (floodFill_region imageData x y targetColor fillColor Hwf Hfill)
    as (_ & _ & _ & _ & Hpix).
  apply (Hpix (px, py) Hp).
  apply inBounds_spec in Hseed as Hs. apply inBounds_spec in Hp as Hp'.
  simpl in Hs, Hp'.
  assert (Hmid : inBounds imageData (px, y) = true)
    by (apply inBounds_spec; simpl; lia).
  eapply (reachable_column _ _ _ px y (Z.to_nat (Z.abs (py - y)))); [done| |done..|lia].
  eapply (reachable_row _ _ x y (Z.to_nat (Z.abs (px - x)))); [done..|lia].
Qed.

Lemma floodFill_uniform_buffer_witness :
  getPixelColor
    (floodFill whiteSquare 0 0
       (mkColor (Some 255) (Some 255) (Some 255) (Some 255))
       (mkColor (Some 255) (Some 0) (Some 0) (Some 255))) 1 1
  = mkColor (Some 255) (Some 0) (Some 0) (Some 255).
Proof.
  refine (floodFill_uniform_buffer whiteSquare 0 0
            (mkColor (Some 255) (Some 255) (Some 255) (Some 255))
            (mkColor (Some 255) (Some 0) (Some 0) (Some 255))
            ltac:(unfold buffer_wf; simpl; lia)
            ltac:(exists 255, 0, 0, 255; split; [reflexivity|lia])
            eq_refl _ (1, 1) eq_refl).
  intros [px py] Hp. apply inBounds_spec in Hp. simpl in Hp.
  assert (px = 0 ∨ px = 1) as [-> | ->] by lia;
    (assert (py = 0 ∨ py = 1) as [-> | ->] by lia); reflexivity.
Defined.

(** X24.  Filling twice is filling once: a second [floodFill] with the
    same seed and colours leaves every pixel as the first one left it. *)
Theorem floodFill_twice imageData x y targetColor fillColor :
  buffer_wf imageData → byteColor fillColor →
  let filled := floodFill imageData x y targetColor fillColor in
  ∀ p, inBounds imageData p = true →
       getPixelColor (floodFill filled x y targetColor fillColor) p.1 p.2
       = getPixelColor filled p.1 p.2.
Proof.
  intros Hwf Hfill filled p Hp.
  destruct (floodFill_region imageData x y targetColor fillColor Hwf Hfill)
    as (_ & Hw & Hh & Hwf' & Hpix).
  fold filled in Hw, Hh, Hwf', Hpix.
  destruct (floodFill_region filled x y targetColor fillColor Hwf' Hfill)
    as (_ & _ & _ & _ & Hpix').
  assert (Hdims : ∀ q, inBounds filled q = inBounds imageData q)
    by (intros q; by apply inBounds_dims).
  assert (Hp' : inBounds filled p = true) by by rewrite Hdims.
  destruct (Hpix' p Hp') as [Hin Hout].
  assert (Hdec : reachable filled targetColor (x, y) p ∨
                 ¬ reachable filled targetColor (x, y) p).
  { destruct (floodFill_run filled x y targetColor fillColor Hwf' Hfill)
      as (s & _ & Hst & Hinv).
    destruct (decide (p ∈ fs_visited s)) as [Hv|Hv].
    - left. by apply (inv_sound _ _ _ _ _ Hinv).
    - right. intros Hr. apply Hv. eapply fill_inv_complete; eauto. }
  destruct Hdec as [Hr|Hnr]; [|by apply Hout].
  rewrite (Hin Hr).
  destruct (reachable_fillable _ _ _ _ Hr) as [Hseed Hfp].
  apply fillable_spec in Hseed as [Hsb Hsc]. apply fillable_spec in Hfp as [_ Hpc].
  simpl in Hsc. rewrite Hdims in Hsb.
  destruct (Hpix (x, y) Hsb) as [Hsin Hsout]. simpl in Hsin, Hsout.
  assert (targetColor = fillColor) as Heq; [|by rewrite Hpc].
  assert (Hdec0 : reachable imageData targetColor (x, y) (x, y) ∨
                  ¬ reachable imageData targetColor (x, y) (x, y)).
  { destruct (floodFill_run imageData x y targetColor fillColor Hwf Hfill)
      as (s & _ & Hst & Hinv).
    destruct (decide ((x, y) ∈ fs_visited s)) as [Hv|Hv].
    - left. by apply (inv_sound _ _ _ _ _ Hinv).
    - right. intros Hr0. apply Hv. eapply fill_inv_complete; eauto. }
  destruct Hdec0 as [Hr0|Hnr0].
  - rewrite <- Hsc. by apply Hsin.
  - exfalso. apply Hnr0. apply reachable_seed. apply fillable_spec.
    split; [done|]. simpl. rewrite <- (Hsout Hnr0). done.
Qed.

Lemma floodFill_twice_witness :
  getPixelColor
    (floodFill
       (floodFill threePixels 0 0 (mkColor (Some 1) (Some 1) (Some 1) (Some 1))
          (mkColor (Some 7) (Some 7) (Some 7) (Some 7)))
       0 0 (mkColor (Some 1) (Some 1) (Some 1) (Some 1))
       (mkColor (Some 7) (Some 7) (Some 7) (Some 7))) 2 0
  = getPixelColor
      (floodFill threePixels 0 0 (mkColor (Some 1) (Some 1) (Some 1) (Some 1))
         (mkColor (Some 7) (Some 7) (Some 7) (Some 7))) 2 0.
Proof.
  apply (floodFill_twice threePixels 0 0
           (mkColor (Some 1) (Some 1) (Some 1) (Some 1))
           (mkColor (Some 7) (Some 7) (Some 7) (Some 7))
           ltac:(unfold buffer_wf; simpl; lia)
           ltac:(exists 7, 7, 7, 7; split; [reflexivity|lia])
           (2, 0) eq_refl).
Defined.

(** ** The fill and colour-picker tools: further properties *)

Lemma history_wf_edit st s :
  history_wf st → history s = history st → historyIndex s = historyIndex st →
  maxHistorySteps s = maxHistorySteps st → (nextOid st ≤ nextOid s)%nat →
  history_wf s.
Proof.
  intros [Hcap Hcur Hentry Hdistinct Halloc] Hh Hi Hm Hn.
  split; rewrite ?Hh, ?Hi, ?Hm; try done.
  eapply Forall_impl; [exact Halloc|]. simpl. intros; lia.
Qed.

(** X25.  A fill that changes the canvas commits it: on a well-formed
    canvas and history, with the seed on the canvas, an opaque fill colour
    and another colour under the seed, a completed [handleFloodFill] leaves
    the filled buffer on the canvas, appends a snapshot with the same data
    as the last entry with the cursor on it, and the pixel under the seed
    has the fill colour.  The buffer written back holds pixels read from
    the canvas and opaque pixels only, which a canvas keeps exactly. *)
Theorem handleFloodFill_commits pos st st' :
  history_wf st → canvas_wf (canvas st) →
  0 ≤ Math_floor (pos_x pos) < cv_width (canvas st) →
  0 ≤ Math_floor (pos_y pos) < cv_height (canvas st) →
  opaqueColor (hexToRgba (opacity st) (currentColor st)) →
  colorsEqual
    (getPixelColor (snapshotOf st) (Math_floor (pos_x pos)) (Math_floor (pos_y pos)))
    (hexToRgba (opacity st) (currentColor st)) = false →
  handleFloodFill pos st = Done st' →
  let filled :=
    floodFill (snapshotOf st) (Math_floor (pos_x pos)) (Math_floor (pos_y pos))
      (getPixelColor (snapshotOf st) (Math_floor (pos_x pos))
         (Math_floor (pos_y pos)))
      (hexToRgba (opacity st) (currentColor st)) in
  canvas st' = mkCanvas (cv_width (canvas st)) (cv_height (canvas st)) (data filled) ∧
  last (history st') =
    Some (mkImageData (S (nextOid st)) (cv_width (canvas st))
            (cv_height (canvas st)) (data filled)) ∧
  historyIndex st' = Z.of_nat (length (history st')) - 1 ∧
  getPixelColor filled (Math_floor (pos_x pos)) (Math_floor (pos_y pos))
    = hexToRgba (opacity st) (currentColor st).
Proof.
  intros Hwf Hcv Hx Hy Hopaque Hne. unfold handleFloodFill.
  rewrite captureCanvas_full by (done || lia).
  fold (snapshotOf st). simpl opacity. simpl currentColor. rewrite Hne.
  intros Hsave.
  set (filled := floodFill (snapshotOf st) (Math_floor (pos_x pos))
                   (Math_floor (pos_y pos))
                   (getPixelColor (snapshotOf st) (Math_floor (pos_x pos))
                      (Math_floor (pos_y pos)))
                   (hexToRgba (opacity st) (currentColor st))) in *.
  assert (Hbuf : buffer_wf (snapshotOf st)) by exact Hcv.
  assert (Hfill : byteColor (hexToRgba (opacity st) (currentColor st)))
    by by apply hexToRgba_opaque_byteColor.
  destruct (floodFill_region (snapshotOf st) (Math_floor (pos_x pos))
              (Math_floor (pos_y pos))
              (getPixelColor (snapshotOf st) (Math_floor (pos_x pos))
                 (Math_floor (pos_y pos)))
              (hexToRgba (opacity st) (currentColor st)) Hbuf Hfill)
    as (_ & Hfw & Hfh & Hfwf & Hpix).
  fold filled in Hfw, Hfh, Hfwf, Hpix. simpl in Hfw, Hfh.
  rewrite putImageData_full in Hsave by done.
  match type of Hsave with saveState ?s = _ => set (s1 := s) in * end.
  assert (Hcv1 : canvas_wf (canvas s1)).
  { destruct Hfwf as (? & ? & Hlen). rewrite Hfw, Hfh in *. done. }
  assert (Hwf1 : history_wf s1) by (apply (history_wf_edit st); simpl; (done || lia)).
  destruct (saveState_appends s1 st' Hwf1 Hcv1 Hsave) as (Hh & Hi & _).
  destruct (saveState_Done _ _ Hsave) as (_ & _ & _ & _ & Hc & _).
  split; [done|]. split; [rewrite Hh; apply last_snoc|]. split; [done|].
  assert (Hin : inBounds (snapshotOf st)
                  (Math_floor (pos_x pos), Math_floor (pos_y pos)) = true)
    by (apply inBounds_spec; simpl; lia).
  apply (Hpix _ Hin). apply reachable_seed. unfold fillable. rewrite Hin. simpl.
  apply colorsEqual_refl.
Qed.

Lemma handleFloodFill_commits_witness :
  let pos := mkPoint 1 0 in
  let st := squareFill in
  let st' := stateOf (handleFloodFill pos st) in
  let filled :=
    floodFill (snapshotOf st) (Math_floor (pos_x pos)) (Math_floor (pos_y pos))
      (getPixelColor (snapshotOf st) (Math_floor (pos_x pos))
         (Math_floor (pos_y pos)))
      (hexToRgba (opacity st) (currentColor st)) in
  canvas st' = mkCanvas (cv_width (canvas st)) (cv_height (canvas st)) (data filled) ∧
  last (history st') =
    Some (mkImageData (S (nextOid st)) (cv_width (canvas st))
            (cv_height (canvas st)) (data filled)) ∧
  historyIndex st' = Z.of_nat (length (history st')) - 1 ∧
  getPixelColor filled (Math_floor (pos_x pos)) (Math_floor (pos_y pos))
    = hexToRgba (opacity st) (currentColor st).
Proof.
  intros pos st st'. apply (handleFloodFill_commits pos st st').
  - assert (history_run
              (stateOf (saveStates 1 (constructed whiteSquareCanvas)))) as Hrun
      by (by apply history_run_saveStates; [apply run_constructed|..]).
    by destruct (history_run_wf _ Hrun).
  - unfold canvas_wf. simpl. lia.
  - vm_compute. split; [discriminate|reflexivity].
  - vm_compute. split; [discriminate|reflexivity].
  - vm_compute. reflexivity.
  - vm_compute. reflexivity.
  - vm_compute. reflexivity.
Defined.

Lemma getImageData_pixel cv fresh sx sy :
  getImageData cv fresh sx sy 1 1 =
  inr (mkImageData fresh 1 1
         (if (0 <=? sx) && (sx <? cv_width cv) && (0 <=? sy) && (sy <? cv_height cv)
          then [default 0 (js_get (cv_bitmap cv) ((sy * cv_width cv + sx) * 4 + 0));
                default 0 (js_get (cv_bitmap cv) ((sy * cv_width cv + sx) * 4 + 1));
                default 0 (js_get (cv_bitmap cv) ((sy * cv_width cv + sx) * 4 + 2));
                default 0 (js_get (cv_bitmap cv) ((sy * cv_width cv + sx) * 4 + 3))]
          else [0; 0; 0; 0])).
Proof.
  unfold getImageData. simpl.
  change (seqZ 0 4) with [0; 1; 2; 3]. simpl.
  rewrite !Z.add_0_r.
  by destruct ((0 <=? sx) && (sx <? cv_width cv) && (0 <=? sy) && (sy <? cv_height cv)).
Qed.

(** X26.  [handleColorPicker] never throws.  On the canvas it sets the
    stroke colour to the hexadecimal string of the red, green and blue
    channels under the pointer, ignoring alpha; off the canvas it sets
    [#000000].  Canvas and history are untouched. *)
Theorem handleColorPicker_samples pos st :
  let x := Math_floor (pos_x pos) in
  let y := Math_floor (pos_y pos) in
  (∀ r g b a,
     0 ≤ x < cv_width (canvas st) → 0 ≤ y < cv_height (canvas st) →
     getPixelColor (snapshotOf st) x y = mkColor (Some r) (Some g) (Some b) (Some a) →
     handleColorPicker pos st =
     Done (selectColor (rgbaToHex r g b) (set_nextOid (S (nextOid st)) st))) ∧
  (¬ (0 ≤ x < cv_width (canvas st) ∧ 0 ≤ y < cv_height (canvas st)) →
   handleColorPicker pos st =
   Done (selectColor "#000000" (set_nextOid (S (nextOid st)) st))) ∧
  (∃ s, handleColorPicker pos st = Done s ∧ canvas s = canvas st ∧
        history s = history st ∧ historyIndex s = historyIndex st).
Proof.
  intros x y.
  assert (∃ s, handleColorPicker pos st = Done s ∧ canvas s = canvas st ∧
               history s = history st ∧ historyIndex s = historyIndex st) as Hdone.
  { unfold handleColorPicker, getImageData. simpl.
    eexists. split; [reflexivity|]. done. }
  split; [|split; [|exact Hdone]]; clear Hdone;
    unfold handleColorPicker; fold x y; rewrite getImageData_pixel.
  - intros r g b a Hx Hy Hpix.
    rewrite (proj2 (Z.leb_le _ _) (proj1 Hx)), (proj2 (Z.ltb_lt _ _) (proj2 Hx)),
      (proj2 (Z.leb_le _ _) (proj1 Hy)), (proj2 (Z.ltb_lt _ _) (proj2 Hy)).
    simpl. unfold getPixelColor in Hpix. simpl in Hpix.
    injection Hpix as Hr Hg Hb _.
    rewrite Z.add_0_r, Hr, Hg, Hb. reflexivity.
  - intros Hout.
    destruct ((0 <=? x) && (x <? cv_width (canvas st)) && (0 <=? y) &&
              (y <? cv_height (canvas st))) eqn:Hin; [|reflexivity].
    exfalso. apply Hout. rewrite !andb_true_iff in Hin.
    destruct Hin as [[[H1 H2] H3] H4].
    apply Z.leb_le in H1, H3. apply Z.ltb_lt in H2, H4. lia.
Qed.

Lemma handleColorPicker_samples_witness :
  handleColorPicker origin (pushed 1) =
    Done (selectColor (rgbaToHex 255 255 255)
            (set_nextOid (S (nextOid (pushed 1))) (pushed 1))) ∧
  handleColorPicker (mkPoint 5 0) (pushed 1) =
    Done (selectColor "#000000" (set_nextOid (S (nextOid (pushed 1))) (pushed 1))).
Proof.
  split.
  - apply (proj1 (handleColorPicker_samples origin (pushed 1)) 255 255 255 255).
    + vm_compute. split; [discriminate|reflexivity].
    + vm_compute. split; [discriminate|reflexivity].
    + vm_compute. reflexivity.
  - apply (proj1 (proj2 (handleColorPicker_samples (mkPoint 5 0) (pushed 1)))).
    vm_compute. intros [[_ H] _]. discriminate H.
Defined.

Lemma Math_round_full (q : Q) : (q == 1)%Q → Math_round (q * 255) = 255.
Proof.
  intros Hq. unfold Math_round.
  assert (q * 255 + (1 # 2) == 1 * 255 + (1 # 2))%Q as Heq by (by rewrite Hq).
  by rewrite (Qfloor_comp _ _ Heq).
Qed.

(** X27.  Picking a colour and filling at the same point does nothing: on
    an opaque pixel, at opacity 1, the colour [handleColorPicker] sets makes
    [handleFloodFill] at that point return without a write or a push. *)
Theorem pick_then_fill_is_noop pos st picked r g b :
  canvas_wf (canvas st) →
  0 ≤ Math_floor (pos_x pos) < cv_width (canvas st) →
  0 ≤ Math_floor (pos_y pos) < cv_height (canvas st) →
  (opacity st == 1)%Q →
  getPixelColor (snapshotOf st) (Math_floor (pos_x pos)) (Math_floor (pos_y pos))
    = mkColor (Some r) (Some g) (Some b) (Some 255) →
  0 ≤ r ≤ 255 → 0 ≤ g ≤ 255 → 0 ≤ b ≤ 255 →
  handleColorPicker pos st = Done picked →
  currentColor picked = rgbaToHex r g b ∧
  handleFloodFill pos picked = Done (set_nextOid (S (nextOid picked)) picked).
Proof.
  intros Hcv Hx Hy Hop Hpix Hr Hg Hb Hpick.
  rewrite (proj1 (handleColorPicker_samples pos st) r g b 255 Hx Hy Hpix) in Hpick.
  injection Hpick as <-. split; [reflexivity|].
  eapply handleFloodFill_equal.
  - apply captureCanvas_full; simpl; [done|lia..].
  - simpl. rewrite rgbaToHex_hexToRgba_bytes by done.
    rewrite Math_round_full by done.
    unfold snapshotOf in Hpix. unfold getPixelColor in *. simpl in *.
    rewrite Hpix. apply colorsEqual_refl.
Qed.

Lemma pick_then_fill_is_noop_witness :
  let picked := stateOf (handleColorPicker origin (pushed 1)) in
  currentColor picked = rgbaToHex 255 255 255 ∧
  handleFloodFill origin picked = Done (set_nextOid (S (nextOid picked)) picked).
Proof.
  intros picked.
  apply (pick_then_fill_is_noop origin (pushed 1) picked 255 255 255).
  - unfold canvas_wf. simpl. lia.
  - vm_compute. split; [discriminate|reflexivity].
  - vm_compute. split; [discriminate|reflexivity].
  - reflexivity.
  - vm_compute. reflexivity.
  - lia.
  - lia.
  - lia.
  - vm_compute. reflexivity.
Defined.

(** ** The text tool and the keyboard *)

Lemma truthy_trimEnd s : truthy (trimEnd s) = hasInk s.
Proof.
  unfold hasInk. induction s as [|c rest IH]; [done|]. simpl.
  rewrite <- IH. destruct (trimEnd rest); simpl.
  - destruct (isWhitespace c); done.
  - by rewrite orb_true_r.
Qed.

Lemma hasInk_trimStart s : hasInk (trimStart s) = hasInk s.
Proof.
  unfold hasInk. induction s as [|c rest IH]; [done|]. simpl.
  destruct (isWhitespace c) eqn:Hc; [|by simpl; rewrite Hc]. by rewrite IH.
Qed.

Lemma text_condition text : truthy text && truthy (trim text) = hasInk text.
Proof.
  unfold trim. rewrite truthy_trimEnd, hasInk_trimStart.
  destruct text; [done|]. done.
Qed.

Section TextTool.
Context `{R : Raster}.

(** X28.  [handleTextTool] stamps exactly when the answer has a character
    that is not whitespace: it then draws the text as entered, not trimmed,
    at the pointer with a font of three times the brush size, and saves;
    for a whitespace-only or empty answer, or a cancelled prompt, it returns
    the state unchanged. *)
Theorem handleTextTool_stamps_iff_ink pos text st :
  (hasInk text = true ↔
   ∃ c, In c (list_ascii_of_string text) ∧ isWhitespace c = false) ∧
  (hasInk text = true →
   let s1 := setupDrawingContext st in
   let s2 := set_ctx (set_font (pxArial (brushSize st * 3)) (ctx s1)) s1 in
   handleTextTool pos (Some text) st =
   saveState
     (set_canvas (fillText text (pos_x pos) (pos_y pos) (ctx s2) (canvas st)) s2)) ∧
  (hasInk text = false → handleTextTool pos (Some text) st = Done st) ∧
  handleTextTool pos None st = Done st.
Proof.
  split; [|split; [|split]].
  - unfold hasInk. rewrite existsb_exists. split.
    + intros (c & Hin & Hc). exists c. split; [done|]. by destruct (isWhitespace c).
    + intros (c & Hin & Hc). exists c. split; [done|]. by rewrite Hc.
  - intros Hink. unfold handleTextTool. by rewrite text_condition, Hink.
  - intros Hink. unfold handleTextTool. by rewrite text_condition, Hink.
  - reflexivity.
Qed.

End TextTool.

Lemma handleTextTool_stamps_iff_ink_witness :
  @handleTextTool inkRaster origin (Some " hi "%string) (pushed 1) =
  saveState
    (set_canvas
       (@fillText inkRaster " hi "%string 0%Q 0%Q
          (ctx (set_ctx (set_font (pxArial (brushSize (pushed 1) * 3))
                           (ctx (setupDrawingContext (pushed 1))))
                  (setupDrawingContext (pushed 1))))
          (canvas (pushed 1)))
       (set_ctx (set_font (pxArial (brushSize (pushed 1) * 3))
                   (ctx (setupDrawingContext (pushed 1))))
          (setupDrawingContext (pushed 1)))) ∧
  @handleTextTool inkRaster origin (Some "   "%string) (pushed 1) = Done (pushed 1).
Proof.
  split.
  - apply (proj1 (proj2 (@handleTextTool_stamps_iff_ink inkRaster origin " hi "%string
                           (pushed 1)))).
    reflexivity.
  - apply (proj1 (proj2 (proj2 (@handleTextTool_stamps_iff_ink inkRaster origin
                                  "   "%string (pushed 1))))).
    reflexivity.
Defined.

(** X29.  [handleKeyboard]: without Ctrl or Cmd nothing happens; with one
    of them, [z] and [Z] both run [undo] (so Ctrl+Shift+Z undoes), [y] and
    [Y] run [redo]; no completed shortcut changes the history sequence. *)
Theorem handleKeyboard_shortcuts ctrlKey metaKey key st :
  (ctrlKey || metaKey = false → handleKeyboard ctrlKey metaKey key st = Done st) ∧
  (ctrlKey || metaKey = true → key = "z"%string ∨ key = "Z"%string →
   handleKeyboard ctrlKey metaKey key st = undo st) ∧
  (ctrlKey || metaKey = true → key = "y"%string ∨ key = "Y"%string →
   handleKeyboard ctrlKey metaKey key st = redo st) ∧
  (∀ st', handleKeyboard ctrlKey metaKey key st = Done st' →
          history st' = history st ∧ nextOid st' = nextOid st).
Proof.
  unfold handleKeyboard. split; [|split; [|split]].
  - by intros ->.
  - intros -> [->| ->]; reflexivity.
  - intros -> [->| ->]; reflexivity.
  - intros st'. destruct (ctrlKey || metaKey); [|by intros [= <-]].
    repeat match goal with
    | |- context [String.eqb ?a ?b] => destruct (String.eqb a b)
    end; try (by intros [= <-]).
    + intros H. by destruct (undo_Done _ _ H) as (? & ? & _).
    + intros H. by destruct (redo_Done _ _ H) as (? & ? & _).
Qed.

Lemma handleKeyboard_shortcuts_witness :
  handleKeyboard true false "Z"%string (pushed 3) = undo (pushed 3) ∧
  handleKeyboard false true "y"%string (pushed 3) = redo (pushed 3) ∧
  handleKeyboard false false "z"%string (pushed 3) = Done (pushed 3).
Proof.
  split; [|split].
  - apply (proj1 (proj2 (handleKeyboard_shortcuts true false "Z"%string (pushed 3))));
      [reflexivity|by right].
  - apply (proj1 (proj2 (proj2 (handleKeyboard_shortcuts false true "y"%string (pushed 3)))));
      [reflexivity|by left].
  - apply (proj1 (handleKeyboard_shortcuts false false "z"%string (pushed 3))). reflexivity.
Defined.
